(** * volos: the OAuth cache-aside decorator (oauth/common/lib/oauth-cache.js)

    A shallow embedding of [OAuthCache] and the properties its specification
    states about it.

    The JavaScript is callback based.  The embedding keeps the decorator's own
    functions in continuation-passing style, exactly as they are written
    ([cacheToken err token cb], [getCachedToken token cb], ...), and runs them
    in a small state-and-exception monad [M] over a [World]:

    - the store ([this.cache]) and the target ([this.target]) are external.
      Each call to them is recorded in the world's trace and answers with the
      arguments of the one callback invocation it makes (both are trusted to
      call back exactly once);
    - the caller's completion callback is [user_cb]: every invocation is
      recorded in the trace with its argument list and returns normally;
    - an exception is a [Throw] completion; [try_catch] is try/catch.

    Numbers are IEEE-754 binary64 values, as JavaScript has them. *)

From Stdlib Require Import ZArith Floats String Ascii List Bool DecimalString.
From stdpp Require Import gmap strings.
Import ListNotations.
Local Open Scope string_scope.
Local Open Scope list_scope.

(** ** JavaScript values *)

(** The values the decorator handles: primitives, arrays, plain objects and
    Error objects.  Objects carry their own properties in insertion order. *)
#[warnings="-register-all"] Inductive JsVal : Type :=
| JUndefined
| JNull
| JBool (b : bool)
| JNum (n : float)
| JStr (s : string)
| JArr (elems : list JsVal) (props : list (string * JsVal))
| JObj (props : list (string * JsVal))
| JError (cls : string) (props : list (string * JsVal)).

Definition Props := list (string * JsVal).

Fixpoint props_lookup (k : string) (ps : Props) : option JsVal :=
  match ps with
  | [] => None
  | (k', v) :: ps' => if String.eqb k k' then Some v else props_lookup k ps'
  end.

Fixpoint props_set (k : string) (v : JsVal) (ps : Props) : Props :=
  match ps with
  | [] => [(k, v)]
  | (k', v') :: ps' =>
      if String.eqb k k' then (k, v) :: ps' else (k', v') :: props_set k v ps'
  end.

Definition props_delete (k : string) (ps : Props) : Props :=
  List.filter (fun p => negb (String.eqb k (fst p))) ps.

(** [x ? a : b], [if (x)], [!x], [!!x]: ToBoolean. *)
Definition truthy (v : JsVal) : bool :=
  match v with
  | JUndefined | JNull => false
  | JBool b => b
  | JNum n => negb (PrimFloat.is_zero n || PrimFloat.is_nan n)
  | JStr s => negb (String.eqb s "")
  | JArr _ _ | JObj _ | JError _ _ => true
  end.

(** [typeof v === 'string'] and [_.isString(v)]. *)
Definition isString (v : JsVal) : bool :=
  match v with JStr _ => true | _ => false end.

(** [a === b] on primitives.  Two object operands are equal only when they are
    the same reference; the one use below compares against fresh strings. *)
Definition strict_equals (a b : JsVal) : bool :=
  match a, b with
  | JUndefined, JUndefined => true
  | JNull, JNull => true
  | JBool x, JBool y => Bool.eqb x y
  | JNum x, JNum y => PrimFloat.eqb x y
  | JStr x, JStr y => String.eqb x y
  | _, _ => false
  end.

(** [Math.min(a, b)] on two numbers. *)
Definition Math_min (a b : float) : float :=
  if PrimFloat.is_nan a || PrimFloat.is_nan b then PrimFloat.nan
  else if PrimFloat.ltb a b then a
  else if PrimFloat.ltb b a then b
  else if PrimFloat.get_sign a then a else b.

(** [s.split(c)] for a one-character separator. *)
Fixpoint split_on (c : ascii) (s : string) : list string :=
  match s with
  | EmptyString => [EmptyString]
  | String a s' =>
      if Ascii.eqb a c then EmptyString :: split_on c s'
      else match split_on c s' with
           | [] => [String a EmptyString]
           | p :: ps => String a p :: ps
           end
  end.

(** underscore's [_.contains] and [_.difference(array, rest)]. *)
Definition contains (l : list JsVal) (v : JsVal) : bool :=
  existsb (strict_equals v) l.

Definition difference (array rest : list JsVal) : list JsVal :=
  List.filter (fun v => negb (contains rest v)) array.

(** [new Error(message)] of class [cls]. *)
Definition new_Error (cls message : string) : JsVal :=
  JError cls [("message", JStr message)].

(** [errorWithCode(code)]. *)
Definition errorWithCode (code : string) : JsVal :=
  match new_Error "Error" code with
  | JError cls ps => JError cls (props_set "errorCode" (JStr code) ps)
  | v => v
  end.

(** The object [Url.parse] returns: Node's [Url] has exactly these twelve
    own properties. *)
Record UrlObject : Type := {
  protocol : JsVal; slashes : JsVal; auth : JsVal; host : JsVal;
  port : JsVal; hostname : JsVal; hash : JsVal; search : JsVal;
  query : JsVal; pathname : JsVal; path : JsVal; href : JsVal
}.

Definition Url_object (u : UrlObject) : JsVal :=
  JObj [("protocol", protocol u); ("slashes", slashes u); ("auth", auth u);
        ("host", host u); ("port", port u); ("hostname", hostname u);
        ("hash", hash u); ("search", search u); ("query", query u);
        ("pathname", pathname u); ("path", path u); ("href", href u)].

(** The library functions the file calls and does not define: [JSON], Node's
    [url] module and the language's conversions of strings and objects. *)
Class Builtins : Type := {
  (** [JSON.stringify(v)] for an object [v] *)
  JSON_stringify : JsVal -> string;
  (** [JSON.parse(s)]: the SyntaxError it throws, or the value *)
  JSON_parse : string -> JsVal + JsVal;
  (** [Url.parse(s)]: the error it throws on a string it refuses (a
      malformed URL), or the Url object *)
  Url_parse : string -> JsVal + UrlObject;
  (** ToNumber of a string *)
  StringToNumber : string -> float;
  (** ToNumber of an object (through valueOf / toString) *)
  ObjectToNumber : JsVal -> float;
  (** [v.toString()] of a value that is not a string *)
  ValueToString : JsVal -> string
}.

(** ** The world around the decorator *)

Inductive TargetMethod : Type :=
| createTokenClientCredentials_m
| createTokenPasswordCredentials_m
| createTokenAuthorizationCode_m
| generateAuthorizationCode_m
| createTokenImplicitGrant_m
| refreshToken_m
| invalidateToken_m
| verifyToken_m
| verifyApiKey_m.

(** What an observer of one run sees, in order.  [EvCacheSet]'s options are
    [None] when [set] is called with two arguments. *)
Inductive Event : Type :=
| EvCacheSet (key value : JsVal) (opts : option JsVal)
| EvCacheGet (key : JsVal)
| EvCacheDelete (key : JsVal)
| EvTarget (m : TargetMethod) (args : list JsVal)
| EvCallback (args : list JsVal).

Record Entry : Type := { entry_value : string; entry_ttl : option JsVal }.

(** Modelled from the spec: the expiring key-value store (its implementation
    is not part of this file's sources).  [set(key: string, value: string,
    options?)] may throw, [get(key, callback(error, value|absent))],
    [delete(key)], and [options.ttl] is the store-wide ceiling.  Entries live
    under string keys; eviction is the store's own business and is not a step
    of the decorator.  [get_error] and [set_error] put the store in a failing
    state: every [get] then reports that error, every [set] throws it. *)
Record Cache : Type := {
  options_ttl : float;
  options_encoding : JsVal;
  entries : gmap string Entry;
  get_error : option JsVal;
  set_error : option JsVal
}.

(** The target answers a call with the arguments it passes to the callback. *)
Definition Target := TargetMethod -> list JsVal -> list JsVal.

Record World : Type := {
  cache : Cache;
  target : Target;
  (** successive results of [new Date().getTime()] *)
  clock : nat -> float;
  ticks : nat;
  trace : list Event
}.

Inductive Completion (A : Type) : Type :=
| Normal (a : A)
| Throw (e : JsVal).
Arguments Normal {A} a.
Arguments Throw {A} e.

Definition M (A : Type) : Type := World -> Completion A * World.

Definition ret {A} (a : A) : M A := fun w => (Normal a, w).

Definition bind {A B} (m : M A) (k : A -> M B) : M B :=
  fun w => match m w with
           | (Normal a, w') => k a w'
           | (Throw e, w') => (Throw e, w')
           end.

Definition throw {A} (e : JsVal) : M A := fun w => (Throw e, w).

Definition try_catch {A} (body : M A) (handler : JsVal -> M A) : M A :=
  fun w => match body w with
           | (Throw e, w') => handler e w'
           | r => r
           end.

Notation "x <- m ;; k" := (bind m (fun x => k))
  (at level 90, m at next level, right associativity).
Notation "m ;;; k" := (bind m (fun _ => k))
  (at level 90, right associativity).

Definition emit (e : Event) : M unit :=
  fun w => (Normal tt,
            {| cache := cache w; target := target w; clock := clock w;
               ticks := ticks w; trace := trace w ++ [e] |}).

Definition set_cache (c : Cache) : M unit :=
  fun w => (Normal tt,
            {| cache := c; target := target w; clock := clock w;
               ticks := ticks w; trace := trace w |}).

Definition get_cache : M Cache := fun w => (Normal (cache w), w).

(** [new Date().getTime()] *)
Definition Date_getTime : M float :=
  fun w => (Normal (clock w (ticks w)),
            {| cache := cache w; target := target w; clock := clock w;
               ticks := S (ticks w); trace := trace w |}).

Definition with_entries (c : Cache) (es : gmap string Entry) : Cache :=
  {| options_ttl := options_ttl c; options_encoding := options_encoding c;
     entries := es; get_error := get_error c; set_error := set_error c |}.

(** [this.cache.set(key, value, opts)] *)
Definition cache_set (key value : JsVal) (opts : option JsVal) : M unit :=
  emit (EvCacheSet key value opts) ;;;
  c <- get_cache ;;
  match set_error c with
  | Some e => throw e
  | None =>
      match key, value with
      | JStr k, JStr v =>
          set_cache (with_entries c
            (<[k := {| entry_value := v;
                       entry_ttl := match opts with
                                    | Some (JObj ps) => props_lookup "ttl" ps
                                    | _ => None
                                    end |}]> (entries c)))
      | _, _ => throw (new_Error "Error" "key and value must be strings")
      end
  end.

(** [this.cache.get(key, callback)]: the arguments of the callback. *)
Definition cache_get (key : JsVal) : M (list JsVal) :=
  emit (EvCacheGet key) ;;;
  c <- get_cache ;;
  match get_error c with
  | Some e => ret [e]
  | None =>
      match key with
      | JStr k =>
          match entries c !! k with
          | Some en => ret [JNull; JStr (entry_value en)]
          | None => ret [JNull; JUndefined]
          end
      | _ => ret [JNull; JUndefined]
      end
  end.

(** [this.cache.delete(key)] *)
Definition cache_delete (key : JsVal) : M unit :=
  emit (EvCacheDelete key) ;;;
  c <- get_cache ;;
  match key with
  | JStr k => set_cache (with_entries c (delete k (entries c)))
  | _ => ret tt
  end.

(** [this.target.m(args..., callback)]: the arguments of the callback. *)
Definition target_call (m : TargetMethod) (args : list JsVal) : M (list JsVal) :=
  emit (EvTarget m args) ;;;
  fun w => (Normal (target w m args), w).

(** A callback, called with an argument list; a missing argument reads as
    [undefined]. *)
Definition Callback := list JsVal -> M unit.

Definition arg (i : nat) (args : list JsVal) : JsVal := nth i args JUndefined.

(** The completion callback the caller of a public operation passes in. *)
Definition user_cb : Callback := fun args => emit (EvCallback args).

(** ** The language's property access (the file is in strict mode) *)

Section Decorator.
Context {B : Builtins}.

Definition TypeError (message : string) : JsVal := new_Error "TypeError" message.

(** [v.k] for the property names the file reads (none of them is inherited
    or built in): a TypeError on [undefined] and [null], [undefined] on other
    primitives and on an object that lacks the property. *)
Definition get_prop (v : JsVal) (k : string) : M JsVal :=
  match v with
  | JUndefined | JNull => throw (TypeError ("Cannot read property " +:+ k))
  | JArr _ ps | JObj ps | JError _ ps =>
      ret (match props_lookup k ps with Some x => x | None => JUndefined end)
  | JBool _ | JNum _ | JStr _ => ret JUndefined
  end.

(** [v.k = x]; the result is the object after the assignment.  In strict mode
    an assignment to a property of a primitive throws. *)
Definition set_prop (v : JsVal) (k : string) (x : JsVal) : M JsVal :=
  match v with
  | JArr es ps => ret (JArr es (props_set k x ps))
  | JObj ps => ret (JObj (props_set k x ps))
  | JError c ps => ret (JError c (props_set k x ps))
  | JUndefined | JNull => throw (TypeError ("Cannot set property " +:+ k))
  | JBool _ | JNum _ | JStr _ => throw (TypeError ("Cannot create property " +:+ k))
  end.

(** [delete(v.k)] *)
Definition delete_prop (v : JsVal) (k : string) : M JsVal :=
  match v with
  | JArr es ps => ret (JArr es (props_delete k ps))
  | JObj ps => ret (JObj (props_delete k ps))
  | JError c ps => ret (JError c (props_delete k ps))
  | JUndefined | JNull => throw (TypeError ("Cannot convert undefined or null to object"))
  | JBool _ | JNum _ | JStr _ => ret v
  end.

(** ToNumber, as the operators [*] and [-] apply it to an operand. *)
Definition ToNumber (v : JsVal) : float :=
  match v with
  | JUndefined => PrimFloat.nan
  | JNull => PrimFloat.zero
  | JBool b => if b then PrimFloat.one else PrimFloat.zero
  | JNum n => n
  | JStr s => StringToNumber s
  | JArr _ _ | JObj _ | JError _ _ => ObjectToNumber v
  end.

Definition thousand : float := 1000%float.

(** [v.split(' ')]: only strings have the method. *)
Definition split_method (v : JsVal) : M (list JsVal) :=
  match v with
  | JStr s => ret (map JStr (split_on " "%char s))
  | JUndefined | JNull => throw (TypeError "Cannot read property split")
  | _ => throw (TypeError "split is not a function")
  end.

(** [v.toString()] *)
Definition toString_method (v : JsVal) : M string :=
  match v with
  | JStr s => ret s
  | JUndefined | JNull => throw (TypeError "Cannot read property toString")
  | _ => ret (ValueToString v)
  end.

(** ** oauth-cache.js *)

(** [new OAuthCache(cache, target)]: the instance is the pair held by the
    world; the constructor refuses a store with an encoding. *)
Definition OAuthCache (c : Cache) (t : Target) (clk : nat -> float) : Completion World :=
  if truthy (options_encoding c)
  then Throw (new_Error "Error" "Cache must not specify an encoding option.")
  else Normal {| cache := c; target := t; clock := clk; ticks := 0; trace := [] |}.

(** [OAuthCache.prototype.cacheToken].  [result] and [token] are one object
    unless [token] is a string, so the stamp [cached_at] shows in [result].
    [Url.parse] is called inside the try: what it throws goes to the catch. *)
Definition cacheToken (err token : JsVal) (cb : Callback) : M unit :=
  try_catch
    (if truthy err then cb [err]
     else
       parsed <- (match token with
                  | JStr s => match Url_parse s with
                              | inl e => throw e
                              | inr u => ret (Url_object u)
                              end
                  | _ => ret token
                  end) ;;
       access_token <- get_prop parsed "access_token" ;;
       if negb (truthy access_token) then cb [err; token]
       else
         let key := access_token in
         now <- Date_getTime ;;
         stamped <- set_prop parsed "cached_at" (JNum now) ;;
         let result := match token with JStr _ => token | _ => stamped end in
         let target := JSON_stringify stamped in
         expires_in <- get_prop stamped "expires_in" ;;
         c <- get_cache ;;
         let opts :=
           if truthy expires_in then
             let ttl := PrimFloat.mul (ToNumber expires_in) thousand in
             JObj [("ttl", JNum (Math_min ttl (options_ttl c)))]
           else JNull in
         cache_set key (JStr target) (Some opts) ;;;
         cb [JNull; result])
    (fun err => cb [err]).

(** The key of a token or key argument:
    [(_.isString(token)) ? token : token.access_token]. *)
Definition token_key (token : JsVal) : M JsVal :=
  if isString token then ret token else get_prop token "access_token".

(** [OAuthCache.prototype.getCachedToken].  The catch block reports the parse
    error and falls through with [token] still undefined. *)
Definition getCachedToken (token : JsVal) (cb : Callback) : M unit :=
  key <- token_key token ;;
  args <- cache_get key ;;
  let err := arg 0 args in
  let reply := arg 1 args in
  if truthy err then cb [err]
  else if negb (truthy reply) then cb [err; reply]
  else
    token <- try_catch
               (s <- toString_method reply ;;
                match JSON_parse s with
                | inl e => throw e
                | inr v => ret v
                end)
               (fun err => cb [err; JNull] ;;; ret JUndefined) ;;
    now <- Date_getTime ;;
    cached_at <- get_prop token "cached_at" ;;
    let elapsed := PrimFloat.sub now (ToNumber cached_at) in
    expires_in <- get_prop token "expires_in" ;;
    token <- set_prop token "expires_in"
               (JNum (PrimFloat.sub (ToNumber expires_in)
                                    (PrimFloat.div elapsed thousand))) ;;
    token <- delete_prop token "cached_at" ;;
    cb [err; token].

(** [OAuthCache.prototype.deleteCachedToken] *)
Definition deleteCachedToken (token : JsVal) : M unit :=
  key <- token_key token ;;
  cache_delete key.

(** The token-issuing operations: the target's answer goes through
    [cacheToken]. *)
Definition issue (m : TargetMethod) (options : JsVal) (cb : Callback) : M unit :=
  args <- target_call m [options] ;;
  cacheToken (arg 0 args) (arg 1 args) cb.

Definition createTokenClientCredentials := issue createTokenClientCredentials_m.
Definition createTokenPasswordCredentials := issue createTokenPasswordCredentials_m.
Definition createTokenAuthorizationCode := issue createTokenAuthorizationCode_m.
Definition createTokenImplicitGrant := issue createTokenImplicitGrant_m.
Definition refreshToken := issue refreshToken_m.

(** [generateAuthorizationCode] hands [cb] to the target. *)
Definition generateAuthorizationCode (options : JsVal) (cb : Callback) : M unit :=
  args <- target_call generateAuthorizationCode_m [options] ;;
  cb args.

(** [OAuthCache.prototype.invalidateToken] *)
Definition invalidateToken (options : JsVal) (cb : Callback) : M unit :=
  token <- get_prop options "token" ;;
  deleteCachedToken token ;;;
  args <- target_call invalidateToken_m [options] ;;
  cb args.

(** [OAuthCache.prototype.verifyToken] *)
Definition verifyToken (token requiredScopes : JsVal) (cb : Callback) : M unit :=
  getCachedToken token (fun args =>
    let reply := arg 1 args in
    if truthy reply then
      if truthy requiredScopes then
        required <- (match requiredScopes with
                     | JArr es _ => ret es
                     | _ => if truthy requiredScopes
                            then split_method requiredScopes
                            else ret []
                     end) ;;
        scope <- get_prop reply "scope" ;;
        grantedScopes <- (if truthy scope then split_method scope else ret []) ;;
        if (0 <? length (difference required grantedScopes))%nat
        then cb [errorWithCode "invalid_scope"]
        else cb [JNull; reply]
      else cb [JNull; reply]
    else
      targs <- target_call verifyToken_m [token; requiredScopes] ;;
      let err := arg 0 targs in
      let reply := arg 1 targs in
      if truthy err then cb [err]
      else
        reply <- set_prop reply "access_token" token ;;
        cacheToken err reply cb).

(** [OAuthCache.prototype.cacheApiKey]; an API key is a string. *)
Definition cacheApiKey (apiKey : string) (cb : Callback) : M unit :=
  try_catch
    (let key := "apiKey:" +:+ apiKey in
     cache_set (JStr key) (JStr apiKey) None ;;;
     cb [JNull; JStr apiKey])
    (fun err => cb [err]).

(** [OAuthCache.prototype.getCachedApiKey] *)
Definition getCachedApiKey (apiKey : string) (cb : Callback) : M unit :=
  let key := "apiKey:" +:+ apiKey in
  args <- cache_get (JStr key) ;;
  let err := arg 0 args in
  let reply := arg 1 args in
  if truthy err then cb [err]
  else if negb (truthy reply) then cb []
  else cb [err; JStr apiKey].

(** [OAuthCache.prototype.verifyApiKey] *)
Definition verifyApiKey (apiKey : string) (request : JsVal) (cb : Callback) : M unit :=
  getCachedApiKey apiKey (fun args =>
    let err := arg 0 args in
    let reply := arg 1 args in
    if truthy err || truthy reply then cb [err; JBool (truthy reply)]
    else
      targs <- target_call verifyApiKey_m [JStr apiKey; request] ;;
      let err := arg 0 targs in
      if truthy err then cb [err]
      else
        cacheApiKey apiKey (fun args =>
          let err := arg 0 args in
          let reply := arg 1 args in
          if truthy err then cb [err]
          else cb [JNull; JBool (truthy reply)])).

End Decorator.

(** ** A small runtime to run the embedding on

    [Builtins] is a parameter of everything above.  This instance makes the
    definitions run on concrete inputs: JSON text over integers, strings,
    literals, arrays and objects; a [Url.parse] that fills [href] and [hash]
    only and throws on an undecodable authority. *)
Module Runtime.

Definition dquote : ascii := ascii_of_nat 34.
Definition backslash : ascii := ascii_of_nat 92.

(** The integer a number denotes, when it is one. *)
Definition integer_of (n : float) : option Z :=
  match Prim2SF n with
  | S754_zero _ => Some 0%Z
  | S754_finite s m e =>
      let mag := if (0 <=? e)%Z then Some (Z.pos m * 2 ^ e)%Z
                 else if (Z.pos m mod 2 ^ (- e) =? 0)%Z
                      then Some (Z.pos m / 2 ^ (- e))%Z else None in
      option_map (fun z => if s then (- z)%Z else z) mag
  | _ => None
  end.

Definition number_of (z : Z) : float :=
  if (z <? 0)%Z then PrimFloat.opp (PrimFloat.of_uint63 (Uint63.of_Z (- z)))
  else PrimFloat.of_uint63 (Uint63.of_Z z).

Definition print_number (n : float) : string :=
  match integer_of n with
  | Some z => DecimalString.NilZero.string_of_int (Z.to_int z)
  | None => "null"
  end.

Fixpoint escape (s : string) : string :=
  match s with
  | EmptyString => EmptyString
  | String a s' =>
      if Ascii.eqb a dquote || Ascii.eqb a backslash
      then String backslash (String a (escape s'))
      else String a (escape s')
  end.

Definition quote (s : string) : string :=
  String dquote (escape s +:+ String dquote EmptyString).

Fixpoint join (sep : string) (l : list string) : string :=
  match l with
  | [] => ""
  | [x] => x
  | x :: l' => x +:+ sep +:+ join sep l'
  end.

(** Properties that [JSON.stringify] writes: not [undefined], and not an
    Error's (non-enumerable) message. *)
Definition written (is_error : bool) (k : string) (v : JsVal) : bool :=
  match v with
  | JUndefined => false
  | _ => negb (is_error && String.eqb k "message")
  end.

Fixpoint stringify (v : JsVal) : string :=
  let members (is_error : bool) :=
    fix members (ps : list (string * JsVal)) : list string :=
      match ps with
      | [] => []
      | (k, x) :: ps' =>
          if written is_error k x
          then (quote k +:+ ":" +:+ stringify x) :: members ps'
          else members ps'
      end in
  match v with
  | JUndefined | JNull => "null"
  | JBool b => if b then "true" else "false"
  | JNum n => print_number n
  | JStr s => quote s
  | JArr es _ => "[" +:+ join "," (map stringify es) +:+ "]"
  | JObj ps => "{" +:+ join "," (members false ps) +:+ "}"
  | JError _ ps => "{" +:+ join "," (members true ps) +:+ "}"
  end.

Definition is_digit (a : ascii) : bool :=
  (48 <=? nat_of_ascii a)%nat && (nat_of_ascii a <=? 57)%nat.

Fixpoint skip_ws (s : string) : string :=
  match s with
  | String a s' => if Ascii.eqb a " " then skip_ws s' else s
  | EmptyString => s
  end.

Fixpoint read_digits (acc : Z) (s : string) : Z * string :=
  match s with
  | String a s' =>
      if is_digit a
      then read_digits (10 * acc + Z.of_nat (nat_of_ascii a - 48)) s'
      else (acc, s)
  | EmptyString => (acc, s)
  end.

Fixpoint read_string (s : string) : option (string * string) :=
  match s with
  | EmptyString => None
  | String a s' =>
      if Ascii.eqb a dquote then Some (EmptyString, s')
      else if Ascii.eqb a backslash then
        match s' with
        | String b s'' =>
            match read_string s'' with
            | Some (r, rest) => Some (String b r, rest)
            | None => None
            end
        | EmptyString => None
        end
      else match read_string s' with
           | Some (r, rest) => Some (String a r, rest)
           | None => None
           end
  end.

Definition strip_prefix (p s : string) : option string :=
  if String.prefix p s
  then Some (String.substring (String.length p) (String.length s - String.length p) s)
  else None.

Fixpoint read_value (fuel : nat) (s : string) : option (JsVal * string) :=
  match fuel with
  | O => None
  | S fuel' =>
      let fix elements (n : nat) (acc : list JsVal) (s : string)
          : option (JsVal * string) :=
        match n with
        | O => None
        | S n' =>
            match read_value fuel' s with
            | Some (v, rest) =>
                match skip_ws rest with
                | String "," rest' => elements n' (acc ++ [v]) rest'
                | String "]" rest' => Some (JArr (acc ++ [v]) [], rest')
                | _ => None
                end
            | None => None
            end
        end in
      let fix members (n : nat) (acc : Props) (s : string)
          : option (JsVal * string) :=
        match n with
        | O => None
        | S n' =>
            match skip_ws s with
            | String a s1 =>
                if Ascii.eqb a dquote then
                  match read_string s1 with
                  | Some (k, s2) =>
                      match skip_ws s2 with
                      | String ":" s3 =>
                          match read_value fuel' s3 with
                          | Some (v, rest) =>
                              match skip_ws rest with
                              | String "," rest' => members n' (props_set k v acc) rest'
                              | String "}" rest' => Some (JObj (props_set k v acc), rest')
                              | _ => None
                              end
                          | None => None
                          end
                      | _ => None
                      end
                  | None => None
                  end
                else None
            | EmptyString => None
            end
        end in
      match skip_ws s with
      | EmptyString => None
      | String a s' =>
          if Ascii.eqb a dquote then
            match read_string s' with
            | Some (r, rest) => Some (JStr r, rest)
            | None => None
            end
          else if Ascii.eqb a "[" then
            match skip_ws s' with
            | String "]" rest => Some (JArr [] [], rest)
            | _ => elements (String.length s') [] s'
            end
          else if Ascii.eqb a "{" then
            match skip_ws s' with
            | String "}" rest => Some (JObj [], rest)
            | _ => members (String.length s') [] s'
            end
          else if Ascii.eqb a "-" then
            match s' with
            | String d _ =>
                if is_digit d
                then let '(z, rest) := read_digits 0 s' in
                     Some (JNum (number_of (- z)), rest)
                else None
            | EmptyString => None
            end
          else if is_digit a then
            let '(z, rest) := read_digits 0 (String a s') in
            Some (JNum (number_of z), rest)
          else
            match strip_prefix "null" (String a s') with
            | Some rest => Some (JNull, rest)
            | None =>
                match strip_prefix "true" (String a s') with
                | Some rest => Some (JBool true, rest)
                | None =>
                    match strip_prefix "false" (String a s') with
                    | Some rest => Some (JBool false, rest)
                    | None => None
                    end
                end
            end
      end
  end.

Definition parse (s : string) : JsVal + JsVal :=
  match read_value (S (String.length s)) s with
  | Some (v, rest) =>
      match skip_ws rest with
      | EmptyString => inr v
      | _ => inl (new_Error "SyntaxError" "Unexpected token")
      end
  | None => inl (new_Error "SyntaxError" "Unexpected token")
  end.

Fixpoint from_hash (s : string) : JsVal :=
  match s with
  | EmptyString => JNull
  | String a s' => if Ascii.eqb a "#" then JStr s else from_hash s'
  end.

Definition url_fields (s : string) : UrlObject :=
  {| protocol := JNull; slashes := JNull; auth := JNull; host := JNull;
     port := JNull; hostname := JNull; hash := from_hash s; search := JNull;
     query := JNull; pathname := JNull; path := JNull; href := JStr s |}.

Fixpoint occurs (p s : string) : bool :=
  match s with
  | EmptyString => String.prefix p s
  | String _ s' => String.prefix p s || occurs p s'
  end.

(** Refuses an authority that ends in a bare percent sign, which cannot be
    decoded. *)
Definition url_parse (s : string) : JsVal + UrlObject :=
  if occurs "%@" s then inl (new_Error "URIError" "URI malformed")
  else inr (url_fields s).

Definition string_to_number (s : string) : float :=
  match parse s with
  | inr (JNum n) => n
  | _ => if String.eqb s "" then PrimFloat.zero else PrimFloat.nan
  end.

Definition value_to_string (v : JsVal) : string :=
  match v with
  | JObj _ => "[object Object]"
  | JError c _ => c
  | _ => stringify v
  end.

Definition builtins : Builtins :=
  {| JSON_stringify := stringify;
     JSON_parse := parse;
     Url_parse := url_parse;
     StringToNumber := string_to_number;
     ObjectToNumber := fun _ => PrimFloat.nan;
     ValueToString := value_to_string |}.

(** A healthy, empty store with a ceiling of [ttl] milliseconds. *)
Definition empty_cache (ttl : float) : Cache :=
  {| options_ttl := ttl; options_encoding := JUndefined; entries := ∅;
     get_error := None; set_error := None |}.

Definition world (c : Cache) (t : Target) (clk : nat -> float) : World :=
  {| cache := c; target := t; clock := clk; ticks := 0; trace := [] |}.

End Runtime.


(** ** Observing a run *)

(** What one run of an operation shows: how it completed, the events it
    produced (the log starts empty; no operation reads it) and the store it
    left. *)
Record Outcome : Type := {
  completion : Completion unit;
  events : list Event;
  store : Cache
}.

Definition fresh (w : World) : World :=
  {| cache := cache w; target := target w; clock := clock w;
     ticks := ticks w; trace := [] |}.

Definition run (m : M unit) (w : World) : Outcome :=
  let r := m (fresh w) in
  {| completion := fst r; events := trace (snd r); store := cache (snd r) |}.

(** The next result of [new Date().getTime()]. *)
Definition now (w : World) : float := clock w (ticks w).

(** The invocations of the caller's callback, the target calls and the store
    writes among some events. *)
Definition callbacks (evs : list Event) : list (list JsVal) :=
  flat_map (fun e => match e with EvCallback args => [args] | _ => [] end) evs.

Definition target_calls (evs : list Event) : list (TargetMethod * list JsVal) :=
  flat_map (fun e => match e with EvTarget m args => [(m, args)] | _ => [] end) evs.

Definition store_writes (evs : list Event) : list Event :=
  List.filter (fun e => match e with EvCacheSet _ _ _ => true | _ => false end) evs.

(** An own property of an object; a primitive has none. *)
Definition own_property (v : JsVal) (k : string) : option JsVal :=
  match v with
  | JArr _ ps | JObj ps | JError _ ps => props_lookup k ps
  | _ => None
  end.

(** The token after [if (typeof token === 'string') token = Url.parse(token)]:
    what [Url.parse] threw, or the parsed token. *)
Definition parsed_token `{B : Builtins} (token : JsVal) : JsVal + JsVal :=
  match token with
  | JStr s => match Url_parse s with
              | inl e => inl e
              | inr u => inr (Url_object u)
              end
  | _ => inr token
  end.

(** The value [token.access_token] reads on the (parsed) token. *)
Definition access_token_of (token : JsVal) : JsVal :=
  match own_property token "access_token" with
  | Some v => v
  | None => JUndefined
  end.

Definition nullish (v : JsVal) : bool :=
  match v with JUndefined | JNull => true | _ => false end.

(** A token argument and the store key it stands for: the string itself, or
    the [access_token] of a token record. *)
Inductive names_key : JsVal -> string -> Prop :=
| names_key_string (k : string) : names_key (JStr k) k
| names_key_record (ps : Props) (k : string) :
    props_lookup "access_token" ps = Some (JStr k) -> names_key (JObj ps) k.

(** A store that answers: neither [get] nor [set] fails. *)
Definition healthy (c : Cache) : Prop :=
  get_error c = None /\ set_error c = None.

(** The scopes a scope argument requires, when it is an array or a non-empty
    space-separated string. *)
Definition required_of (requiredScopes : JsVal) : option (list JsVal) :=
  match requiredScopes with
  | JArr es _ => Some es
  | JStr s => if truthy requiredScopes then Some (map JStr (split_on " " s)) else None
  | _ => None
  end.

(** The scopes a cached record grants: the split of its [scope] string, none
    when the field is absent or empty. *)
Definition granted_of (ps : Props) : list JsVal :=
  match props_lookup "scope" ps with
  | Some (JStr s) => if truthy (JStr s) then map JStr (split_on " " s) else []
  | _ => []
  end.

Definition scope_is_string_or_absent (ps : Props) : bool :=
  match props_lookup "scope" ps with
  | None | Some (JStr _) => true
  | Some _ => false
  end.

(** The options [cacheToken] passes to [set] for a record with properties
    [ps]: [{ ttl: Math.min(expires_in * 1000, cache.options.ttl) }] when
    [expires_in] is truthy, [null] otherwise. *)
Definition ttl_options `{B : Builtins} (c : Cache) (ps : Props) : JsVal :=
  match props_lookup "expires_in" ps with
  | Some expires_in =>
      if truthy expires_in
      then JObj [("ttl", JNum (Math_min (PrimFloat.mul (ToNumber expires_in) thousand)
                                        (options_ttl c)))]
      else JNull
  | None => JNull
  end.

(** The world after some more events, and after one more reading of the
    clock. *)
Definition logged (w : World) (evs : list Event) : World :=
  {| cache := cache w; target := target w; clock := clock w;
     ticks := ticks w; trace := trace w ++ evs |}.

Definition ticked (w : World) : World :=
  {| cache := cache w; target := target w; clock := clock w;
     ticks := S (ticks w); trace := trace w |}.

(** The record [getCachedToken] hands on for a stored record [ps] read at
    time [t]: [expires_in] less the seconds elapsed since [cached_at], and no
    [cached_at]. *)
Definition residual `{B : Builtins} (t : float) (ps : Props) : Props :=
  let field k := match props_lookup k ps with Some v => v | None => JUndefined end in
  let elapsed := PrimFloat.sub t (ToNumber (field "cached_at")) in
  props_delete "cached_at"
    (props_set "expires_in"
       (JNum (PrimFloat.sub (ToNumber (field "expires_in"))
                            (PrimFloat.div elapsed thousand))) ps).

(** [JSON.parse] gives back what [JSON.stringify] wrote, and the text is not
    empty. *)
Definition JSON_round_trips `{B : Builtins} (v : JsVal) : Prop :=
  truthy (JStr (JSON_stringify v)) = true /\ JSON_parse (JSON_stringify v) = inr v.

(** A computation only adds to the log. *)
Definition appends {A} (m : M A) : Prop :=
  forall w, exists evs, trace (snd (m w)) = trace w ++ evs.

(** A computation leaves the store as it found it. *)
Definition keeps_store {A} (m : M A) : Prop :=
  forall w, cache (snd (m w)) = cache w.

(** ** Properties *)

(** *** Own properties *)

Lemma props_lookup_set_eq k v ps : props_lookup k (props_set k v ps) = Some v.
Proof.
  induction ps as [|[k' v'] ps IH]; simpl.
  - now rewrite String.eqb_refl.
  - destruct (String.eqb k k') eqn:E; simpl; rewrite ?String.eqb_refl, ?E; auto.
Qed.

Lemma props_lookup_set_ne k k' v ps :
  k <> k' -> props_lookup k' (props_set k v ps) = props_lookup k' ps.
Proof.
  intros Hne. induction ps as [|[k0 v0] ps IH]; simpl.
  - apply String.eqb_neq in Hne. rewrite String.eqb_sym. now rewrite Hne.
  - destruct (String.eqb k k0) eqn:E; simpl.
    + apply String.eqb_eq in E. subst k0.
      assert (String.eqb k' k = false) as -> by (apply String.eqb_neq; congruence).
      reflexivity.
    + now rewrite IH.
Qed.

Lemma props_lookup_delete_eq k ps : props_lookup k (props_delete k ps) = None.
Proof.
  induction ps as [|[k' v'] ps IH]; simpl; auto.
  destruct (String.eqb k k') eqn:E; simpl; auto. now rewrite E.
Qed.

Lemma props_lookup_delete_ne k k' ps :
  k <> k' -> props_lookup k' (props_delete k ps) = props_lookup k' ps.
Proof.
  intros Hne. induction ps as [|[k0 v0] ps IH]; simpl; auto.
  destruct (String.eqb k k0) eqn:E; simpl.
  - apply String.eqb_eq in E. subst k0.
    assert (String.eqb k' k = false) as -> by (apply String.eqb_neq; congruence).
    exact IH.
  - now rewrite IH.
Qed.

Lemma Url_object_has_no_access_token (u : UrlObject) :
  own_property (Url_object u) "access_token" = None.
Proof. reflexivity. Qed.

(** *** The log only grows *)

Create HintDb appends.

Lemma appends_ret {A} (a : A) : appends (ret a).
Proof. intros w. exists []. simpl. now rewrite app_nil_r. Qed.

Lemma appends_throw {A} e : appends (@throw A e).
Proof. intros w. exists []. simpl. now rewrite app_nil_r. Qed.

Lemma appends_bind {A B} (m : M A) (k : A -> M B) :
  appends m -> (forall a, appends (k a)) -> appends (bind m k).
Proof.
  intros Hm Hk w. unfold bind. destruct (Hm w) as [e1 H1].
  destruct (m w) as [[a|e] w1]; simpl in *.
  - destruct (Hk a w1) as [e2 H2]. exists (e1 ++ e2).
    now rewrite H2, H1, app_assoc.
  - now exists e1.
Qed.

Lemma appends_try_catch {A} (m : M A) (h : JsVal -> M A) :
  appends m -> (forall e, appends (h e)) -> appends (try_catch m h).
Proof.
  intros Hm Hh w. unfold try_catch. destruct (Hm w) as [e1 H1].
  destruct (m w) as [[a|e] w1]; simpl in *.
  - now exists e1.
  - destruct (Hh e w1) as [e2 H2]. exists (e1 ++ e2).
    now rewrite H2, H1, app_assoc.
Qed.

Lemma appends_emit e : appends (emit e).
Proof. intros w. now exists [e]. Qed.

Lemma appends_get_cache : appends get_cache.
Proof. intros w. exists []. simpl. now rewrite app_nil_r. Qed.

Lemma appends_set_cache c : appends (set_cache c).
Proof. intros w. exists []. simpl. now rewrite app_nil_r. Qed.

Lemma appends_Date_getTime : appends Date_getTime.
Proof. intros w. exists []. simpl. now rewrite app_nil_r. Qed.

#[local] Hint Resolve appends_ret appends_throw appends_emit appends_get_cache
  appends_set_cache appends_Date_getTime : appends.

Ltac appends_step :=
  first [ apply appends_bind; [|intros ?]
        | apply appends_try_catch; [|intros ?]
        | solve [auto with appends]
        | match goal with
          | |- appends (if ?b then _ else _) => destruct b
          | |- appends (match ?x with _ => _ end) => destruct x
          end ].

Lemma appends_cache_set k v o : appends (cache_set k v o).
Proof. unfold cache_set. repeat appends_step. Qed.

Lemma appends_cache_get k : appends (cache_get k).
Proof. unfold cache_get. repeat appends_step. Qed.

Lemma appends_cache_delete k : appends (cache_delete k).
Proof. unfold cache_delete. repeat appends_step. Qed.

Lemma appends_target_call m args : appends (target_call m args).
Proof.
  unfold target_call. apply appends_bind; [auto with appends|].
  intros _ w. exists []. simpl. now rewrite app_nil_r.
Qed.

Lemma appends_user_cb args : appends (user_cb args).
Proof. apply appends_emit. Qed.

Lemma appends_get_prop v k : appends (get_prop v k).
Proof. unfold get_prop. destruct v; auto with appends. Qed.

Lemma appends_set_prop v k x : appends (set_prop v k x).
Proof. unfold set_prop. destruct v; auto with appends. Qed.

#[local] Hint Resolve appends_cache_set appends_cache_get appends_cache_delete
  appends_target_call appends_user_cb appends_get_prop appends_set_prop : appends.

Lemma appends_cacheToken `{B : Builtins} err token cb :
  (forall args, appends (cb args)) -> appends (cacheToken err token cb).
Proof. intros Hcb. unfold cacheToken. repeat appends_step. Qed.

(** *** cacheToken *)

Ltac unfold_monad :=
  unfold run, fresh, try_catch, bind, ret, throw, emit, get_cache, set_cache,
    Date_getTime, user_cb.

Lemma cacheToken_pass_through `{B : Builtins} (err token parsed : JsVal) (w : World) :
  truthy err = false ->
  nullish token = false ->
  parsed_token token = inr parsed ->
  truthy (access_token_of parsed) = false ->
  run (cacheToken err token user_cb) w =
    {| completion := Normal tt; events := [EvCallback [err; token]];
       store := cache w |}.
Proof.
  intros Herr Hnull Hparsed Hat. unfold cacheToken. rewrite Herr.
  unfold parsed_token in Hparsed.
  destruct token as [| |b|n|s|elems props|props|cls props]; try discriminate Hnull.
  3: { (* a string: the parsed token is the Url object *)
       destruct (Url_parse s) as [e|u] eqn:Hu; [discriminate Hparsed|].
       unfold get_prop, Url_object. unfold_monad. reflexivity. }
  all: injection Hparsed as <-;
    unfold access_token_of, own_property in Hat;
    unfold get_prop; unfold_monad; simpl;
    try (destruct (props_lookup "access_token" props)); simpl;
    try rewrite Hat; reflexivity.
Qed.

(** C8.  A successful target result whose parsed token (the result itself,
    or what [Url.parse] returns for a string) has no [access_token] field
    reaches the callback as it came, and the store is not written: the run's
    only event is that one callback. *)
Theorem cacheToken_without_access_token_is_uncached
    `{B : Builtins} (err token parsed : JsVal) (w : World) :
  truthy err = false ->
  nullish token = false ->
  parsed_token token = inr parsed ->
  own_property parsed "access_token" = None ->
  run (cacheToken err token user_cb) w =
    {| completion := Normal tt; events := [EvCallback [err; token]];
       store := cache w |}
  /\ store_writes (events (run (cacheToken err token user_cb) w)) = [].
Proof.
  intros Herr Hnull Hparsed Hat.
  assert (truthy (access_token_of parsed) = false) as Hf
    by (unfold access_token_of; now rewrite Hat).
  rewrite (cacheToken_pass_through err token parsed w Herr Hnull Hparsed Hf).
  now split.
Qed.

Lemma cacheToken_without_access_token_is_uncached_witness :
  let redirect := JStr "https://app.example/cb?code=xyz" in
  let w := Runtime.world (Runtime.empty_cache 60000%float) (fun _ _ => []) (fun _ => 0%float) in
  run (cacheToken (B := Runtime.builtins) JNull redirect user_cb) w =
    {| completion := Normal tt; events := [EvCallback [JNull; redirect]];
       store := cache w |}
  /\ store_writes (events (run (cacheToken (B := Runtime.builtins) JNull redirect user_cb) w)) = [].
Proof.
  intros redirect w.
  apply (cacheToken_without_access_token_is_uncached (B := Runtime.builtins)
           JNull redirect
           (Url_object (Runtime.url_fields "https://app.example/cb?code=xyz")) w);
    reflexivity.
Defined.

(** The same through a token-issuing operation: the target is called once and
    its answer is handed on. *)
Lemma issue_without_access_token_is_uncached
    `{B : Builtins} (m : TargetMethod) (options reply parsed : JsVal) (w : World) :
  target w m [options] = [JNull; reply] ->
  nullish reply = false ->
  parsed_token reply = inr parsed ->
  own_property parsed "access_token" = None ->
  run (issue m options user_cb) w =
    {| completion := Normal tt;
       events := [EvTarget m [options]; EvCallback [JNull; reply]];
       store := cache w |}.
Proof.
  intros Ht Hnull Hparsed Hat.
  assert (truthy (access_token_of parsed) = false) as Hf
    by (unfold access_token_of; now rewrite Hat).
  assert (forall tr,
            cacheToken JNull reply user_cb
              {| cache := cache w; target := target w; clock := clock w;
                 ticks := ticks w; trace := tr |} =
            (Normal tt,
             {| cache := cache w; target := target w; clock := clock w;
                ticks := ticks w; trace := tr ++ [EvCallback [JNull; reply]] |})) as Hany.
  { intros tr. unfold cacheToken. cbn [truthy].
    unfold parsed_token in Hparsed.
    destruct reply as [| |b|n|s|elems props|props|cls props]; try discriminate Hnull.
    3: { destruct (Url_parse s) as [e|u] eqn:Hu; [discriminate Hparsed|].
         unfold get_prop, Url_object. unfold_monad. reflexivity. }
    all: injection Hparsed as <-;
      unfold access_token_of, own_property in Hf;
      unfold get_prop; unfold_monad; simpl;
      try (destruct (props_lookup "access_token" props)); simpl;
      try rewrite Hf; reflexivity. }
  unfold run, issue, target_call, bind, emit, fresh.
  cbn [cache target clock ticks trace fst snd]. rewrite Ht.
  unfold arg. cbn [nth]. rewrite Hany. reflexivity.
Qed.

(** C6.  What the code does with a token that is a string: when [Url.parse]
    returns, its object has no [access_token], so the string is handed to
    the callback; when it throws, the callback receives the error.  Either
    way nothing is cached, whatever the string carries. *)
Theorem cacheToken_never_caches_a_string_token
    `{B : Builtins} (s : string) (w : World) :
  run (cacheToken JNull (JStr s) user_cb) w =
    {| completion := Normal tt;
       events := [EvCallback (match Url_parse s with
                              | inl e => [e]
                              | inr _ => [JNull; JStr s]
                              end)];
       store := cache w |}
  /\ store_writes (events (run (cacheToken JNull (JStr s) user_cb) w)) = [].
Proof.
  assert (run (cacheToken JNull (JStr s) user_cb) w =
          {| completion := Normal tt;
             events := [EvCallback (match Url_parse s with
                                    | inl e => [e]
                                    | inr _ => [JNull; JStr s]
                                    end)];
             store := cache w |}) as Hrun.
  { unfold cacheToken. cbn [truthy]. unfold get_prop, Url_object. unfold_monad.
    destruct (Url_parse s) as [e|u].
    - (* [Url.parse] throws: the catch block reports the error *)
      reflexivity.
    - (* [token.access_token] on the parsed Url object *)
      change (props_lookup "access_token" _) with (@None JsVal).
      reflexivity. }
  rewrite Hrun. split; reflexivity.
Qed.

Example cacheToken_implicit_grant_redirect :
  let uri := "https://app.example/cb#access_token=abc&token_type=bearer&expires_in=3600" in
  let w := Runtime.world (Runtime.empty_cache 60000%float) (fun _ _ => []) (fun _ => 0%float) in
  events (run (cacheToken (B := Runtime.builtins) JNull (JStr uri) user_cb) w)
    = [EvCallback [JNull; JStr uri]]
  /\ entries (store (run (cacheToken (B := Runtime.builtins) JNull (JStr uri) user_cb) w)) !! "abc" = None.
Proof. split; reflexivity. Qed.

(** What [cacheToken] does with a record whose [access_token] is a non-empty
    string: one [set] under that key, of the stamped record's JSON, with the
    options computed from [expires_in]; then the callback. *)
Lemma cacheToken_caches_record
    `{B : Builtins} (ps : Props) (key : string) (w : World) :
  props_lookup "access_token" ps = Some (JStr key) ->
  truthy (JStr key) = true ->
  let stamped := JObj (props_set "cached_at" (JNum (now w)) ps) in
  let opts := ttl_options (cache w) ps in
  run (cacheToken JNull (JObj ps) user_cb) w =
    {| completion := Normal tt;
       events :=
         [EvCacheSet (JStr key) (JStr (JSON_stringify stamped)) (Some opts);
          EvCallback (match set_error (cache w) with
                      | Some e => [e]
                      | None => [JNull; stamped]
                      end)];
       store :=
         match set_error (cache w) with
         | Some _ => cache w
         | None =>
             with_entries (cache w)
               (<[key := {| entry_value := JSON_stringify stamped;
                            entry_ttl := own_property opts "ttl" |}]>
                  (entries (cache w)))
         end |}.
Proof.
  intros Hat Hkey stamped opts.
  assert (String.eqb key "" = false) as Hk
    by (simpl in Hkey; now destruct (String.eqb key "")).
  unfold cacheToken, get_prop, set_prop, cache_set. unfold_monad. simpl.
  rewrite Hat. simpl. rewrite Hk. simpl.
  rewrite props_lookup_set_ne by discriminate.
  subst opts. unfold ttl_options.
  destruct (set_error (cache w)) eqn:Hs; simpl;
    destruct (props_lookup "expires_in" ps) as [e|]; simpl;
    try destruct (truthy e); reflexivity.
Qed.

(** C3, as the code has it.  A record cached by [cacheToken] is written with
    the option [ttl = Math.min(expires_in * 1000, cache.options.ttl)] when its
    [expires_in] is truthy (present, and not 0, NaN or empty), and with the
    options [null], that is without a TTL, otherwise. *)
Theorem cacheToken_ttl_is_clamped_lifetime
    `{B : Builtins} (ps : Props) (key : string) (w : World) :
  props_lookup "access_token" ps = Some (JStr key) ->
  truthy (JStr key) = true ->
  exists value,
    store_writes (events (run (cacheToken JNull (JObj ps) user_cb) w)) =
      [EvCacheSet (JStr key) value
         (Some (match props_lookup "expires_in" ps with
                | Some expires_in =>
                    if truthy expires_in
                    then JObj [("ttl",
                                JNum (Math_min
                                        (PrimFloat.mul (ToNumber expires_in) 1000%float)
                                        (options_ttl (cache w))))]
                    else JNull
                | None => JNull
                end))].
Proof.
  intros Hat Hkey. rewrite (cacheToken_caches_record ps key w Hat Hkey).
  eexists. simpl. reflexivity.
Qed.

Lemma cacheToken_ttl_is_clamped_lifetime_witness :
  let ps := [("access_token", JStr "abc"); ("expires_in", JNum 3600%float)] in
  let w := Runtime.world (Runtime.empty_cache 60000%float) (fun _ _ => []) (fun _ => 0%float) in
  exists value,
    store_writes (events (run (cacheToken (B := Runtime.builtins) JNull (JObj ps) user_cb) w)) =
      [EvCacheSet (JStr "abc") value (Some (JObj [("ttl", JNum 60000%float)]))].
Proof.
  intros ps w.
  destruct (cacheToken_ttl_is_clamped_lifetime (B := Runtime.builtins) ps "abc" w
              eq_refl eq_refl) as [value H].
  exists value. exact H.
Defined.

(** C3 as stated fails: a record that carries [expires_in = 0] is written with
    the options [null], not with the TTL [Math.min(0 * 1000, ceiling) = 0]. *)
Lemma cacheToken_zero_lifetime_has_no_ttl :
  let ps := [("access_token", JStr "abc"); ("expires_in", JNum 0%float)] in
  let w := Runtime.world (Runtime.empty_cache 60000%float) (fun _ _ => []) (fun _ => 0%float) in
  props_lookup "expires_in" ps = Some (JNum 0%float)
  /\ Math_min (PrimFloat.mul 0%float 1000%float) (options_ttl (cache w)) = 0%float
  /\ exists value,
       store_writes (events (run (cacheToken (B := Runtime.builtins) JNull (JObj ps) user_cb) w)) =
         [EvCacheSet (JStr "abc") value (Some JNull)]
       /\ entries (store (run (cacheToken (B := Runtime.builtins) JNull (JObj ps) user_cb) w)) !! "abc"
          = Some {| entry_value := Runtime.stringify (JObj (ps ++ [("cached_at", JNum 0%float)]));
                    entry_ttl := None |}.
Proof.
  intros ps w. split; [reflexivity|]. split; [reflexivity|].
  eexists. split; reflexivity.
Qed.

(** *** cacheApiKey *)

(** C10.  [cacheApiKey] calls the store's [set] with the key ['apiKey:' +
    apiKey], the API key itself as the value and no third argument; the entry
    it leaves carries no explicit TTL. *)
Theorem cacheApiKey_sets_key_without_ttl (apiKey : string) (w : World) :
  events (run (cacheApiKey apiKey user_cb) w) =
    [EvCacheSet (JStr ("apiKey:" +:+ apiKey)) (JStr apiKey) None;
     EvCallback (match set_error (cache w) with
                 | Some e => [e]
                 | None => [JNull; JStr apiKey]
                 end)]
  /\ entries (store (run (cacheApiKey apiKey user_cb) w)) =
       match set_error (cache w) with
       | Some _ => entries (cache w)
       | None => <["apiKey:" +:+ apiKey :=
                    {| entry_value := apiKey; entry_ttl := None |}]> (entries (cache w))
       end.
Proof.
  unfold cacheApiKey, cache_set. unfold_monad. simpl.
  destruct (set_error (cache w)); simpl; split; reflexivity.
Qed.

(** *** getCachedToken *)

Lemma token_key_names (token : JsVal) (key : string) (w : World) :
  names_key token key -> token_key token w = (Normal (JStr key), w).
Proof.
  intros [k|ps k H]; unfold token_key, get_prop; simpl; [reflexivity|].
  now rewrite H.
Qed.

Lemma getCachedToken_store_error `{B : Builtins} token key e cb (w : World) :
  names_key token key ->
  get_error (cache w) = Some e ->
  getCachedToken token cb w =
    (if truthy e then cb [e] else cb [e; JUndefined]) (logged w [EvCacheGet (JStr key)]).
Proof.
  intros Hk He. unfold getCachedToken, bind at 1.
  rewrite (token_key_names _ _ _ Hk). unfold cache_get. unfold_monad. simpl.
  rewrite He. unfold arg. simpl. destruct (truthy e); reflexivity.
Qed.

Lemma getCachedToken_miss `{B : Builtins} token key cb (w : World) :
  names_key token key ->
  get_error (cache w) = None ->
  entries (cache w) !! key = None ->
  getCachedToken token cb w =
    cb [JNull; JUndefined] (logged w [EvCacheGet (JStr key)]).
Proof.
  intros Hk He Hm. unfold getCachedToken, bind at 1.
  rewrite (token_key_names _ _ _ Hk). unfold cache_get. unfold_monad. simpl.
  rewrite He, Hm. unfold arg. reflexivity.
Qed.

Lemma getCachedToken_hit `{B : Builtins} token key en ps cb (w : World) :
  names_key token key ->
  get_error (cache w) = None ->
  entries (cache w) !! key = Some en ->
  truthy (JStr (entry_value en)) = true ->
  JSON_parse (entry_value en) = inr (JObj ps) ->
  getCachedToken token cb w =
    cb [JNull; JObj (residual (now w) ps)]
       (ticked (logged w [EvCacheGet (JStr key)])).
Proof.
  intros Hk He Hm Ht Hp. unfold getCachedToken, bind at 1.
  rewrite (token_key_names _ _ _ Hk). unfold cache_get. unfold_monad. simpl.
  rewrite He, Hm. unfold arg. simpl. simpl in Ht. rewrite Ht. simpl.
  rewrite Hp. simpl. reflexivity.
Qed.

Lemma getCachedToken_parse_failure `{B : Builtins} token key en e cb (w : World) :
  names_key token key ->
  get_error (cache w) = None ->
  entries (cache w) !! key = Some en ->
  truthy (JStr (entry_value en)) = true ->
  JSON_parse (entry_value en) = inl e ->
  getCachedToken token cb w =
    (cb [e; JNull] ;;;
     Date_getTime ;;;
     throw (TypeError "Cannot read property cached_at"))
      (logged w [EvCacheGet (JStr key)]).
Proof.
  intros Hk He Hm Ht Hp. unfold getCachedToken, bind at 1.
  rewrite (token_key_names _ _ _ Hk). unfold cache_get. unfold_monad. simpl.
  rewrite He, Hm. unfold arg. simpl. simpl in Ht. rewrite Ht. simpl.
  rewrite Hp. unfold logged. simpl.
  destruct (cb [e; JNull] _) as [[[]|x] w1]; reflexivity.
Qed.

Lemma getCachedToken_not_an_object `{B : Builtins} token key en cb (w : World) :
  names_key token key ->
  get_error (cache w) = None ->
  entries (cache w) !! key = Some en ->
  truthy (JStr (entry_value en)) = true ->
  JSON_parse (entry_value en) = inr JNull ->
  getCachedToken token cb w =
    (Throw (TypeError "Cannot read property cached_at"),
     ticked (logged w [EvCacheGet (JStr key)])).
Proof.
  intros Hk He Hm Ht Hp. unfold getCachedToken, bind at 1.
  rewrite (token_key_names _ _ _ Hk). unfold cache_get. unfold_monad. simpl.
  rewrite He, Hm. unfold arg. simpl. simpl in Ht. rewrite Ht. simpl.
  rewrite Hp. reflexivity.
Qed.

(** C1.  A record cached by [cacheToken] with [expires_in = T] at time [t0]
    and read by [getCachedToken] at time [t1], the entry still in the store:
    the callback receives a record whose [expires_in] is
    [T - (t1 - t0) / 1000] (times are in milliseconds) and which has no
    [cached_at]. *)
Theorem getCachedToken_reports_residual_lifetime
    `{B : Builtins} (ps : Props) (key : string) (T : float) (w0 w1 : World) :
  props_lookup "access_token" ps = Some (JStr key) ->
  truthy (JStr key) = true ->
  props_lookup "expires_in" ps = Some (JNum T) ->
  healthy (cache w0) ->
  JSON_round_trips (JObj (props_set "cached_at" (JNum (now w0)) ps)) ->
  cache w1 = store (run (cacheToken JNull (JObj ps) user_cb) w0) ->
  exists r,
    run (getCachedToken (JStr key) user_cb) w1 =
      {| completion := Normal tt;
         events := [EvCacheGet (JStr key); EvCallback [JNull; JObj r]];
         store := cache w1 |}
    /\ props_lookup "expires_in" r =
         Some (JNum (T - (now w1 - now w0) / 1000)%float)
    /\ props_lookup "cached_at" r = None.
Proof.
  intros Hat Hkey Hexp [Hget Hset] [Htext Hparse] Hcache.
  rewrite (cacheToken_caches_record ps key w0 Hat Hkey) in Hcache.
  simpl in Hcache. rewrite Hset in Hcache.
  set (stamped := props_set "cached_at" (JNum (now w0)) ps) in *.
  exists (residual (now w1) stamped).
  split; [|split].
  - unfold run.
    rewrite (getCachedToken_hit (JStr key) key
               {| entry_value := JSON_stringify (JObj stamped);
                  entry_ttl := own_property (ttl_options (cache w0) ps) "ttl" |}
               stamped).
    + reflexivity.
    + constructor.
    + simpl. now rewrite Hcache.
    + simpl. rewrite Hcache. simpl. apply lookup_insert_eq.
    + exact Htext.
    + exact Hparse.
  - unfold residual, stamped.
    rewrite props_lookup_delete_ne by discriminate.
    rewrite props_lookup_set_eq.
    rewrite props_lookup_set_eq.
    rewrite props_lookup_set_ne by discriminate.
    rewrite Hexp. reflexivity.
  - unfold residual. apply props_lookup_delete_eq.
Qed.

Lemma getCachedToken_reports_residual_lifetime_witness :
  let ps := [("access_token", JStr "abc"); ("expires_in", JNum 3600%float);
             ("scope", JStr "read")] in
  let w0 := Runtime.world (Runtime.empty_cache 60000%float) (fun _ _ => [])
              (fun _ => 1000000%float) in
  let w1 := Runtime.world
              (store (run (cacheToken (B := Runtime.builtins) JNull (JObj ps) user_cb) w0))
              (fun _ _ => []) (fun _ => 1005000%float) in
  exists r,
    run (getCachedToken (B := Runtime.builtins) (JStr "abc") user_cb) w1 =
      {| completion := Normal tt;
         events := [EvCacheGet (JStr "abc"); EvCallback [JNull; JObj r]];
         store := cache w1 |}
    /\ props_lookup "expires_in" r = Some (JNum 3595%float)
    /\ props_lookup "cached_at" r = None.
Proof.
  intros ps w0 w1.
  apply (getCachedToken_reports_residual_lifetime (B := Runtime.builtins)
           ps "abc" 3600%float w0 w1).
  - reflexivity.
  - reflexivity.
  - reflexivity.
  - split; reflexivity.
  - split; reflexivity.
  - reflexivity.
Defined.

(** *** verifyToken *)

Lemma difference_keeps_missing (required granted : list JsVal) :
  (exists s, In s required /\ contains granted s = false) ->
  (0 <? length (difference required granted))%nat = true.
Proof.
  intros [s [Hin Hs]]. unfold difference.
  induction required as [|x xs IH]; [destruct Hin|].
  simpl. destruct Hin as [->|Hin].
  - now rewrite Hs.
  - destruct (contains granted x); simpl; auto.
Qed.

Lemma residual_keeps_scope `{B : Builtins} (t : float) (ps : Props) :
  props_lookup "scope" (residual t ps) = props_lookup "scope" ps.
Proof.
  unfold residual.
  rewrite props_lookup_delete_ne by discriminate.
  now rewrite props_lookup_set_ne by discriminate.
Qed.

(** C2.  [verifyToken] on a cached record, with required scopes given as an
    array or a non-empty space-separated string of which one is not among the
    record's granted scopes: the callback receives one argument, the error
    whose [errorCode] is ['invalid_scope'], and the target is not called. *)
Theorem verifyToken_missing_scope_is_invalid_scope
    `{B : Builtins} (token requiredScopes : JsVal) (key : string) (en : Entry)
    (ps : Props) (required : list JsVal) (w : World) :
  names_key token key ->
  get_error (cache w) = None ->
  entries (cache w) !! key = Some en ->
  truthy (JStr (entry_value en)) = true ->
  JSON_parse (entry_value en) = inr (JObj ps) ->
  scope_is_string_or_absent ps = true ->
  required_of requiredScopes = Some required ->
  (exists s, In s required /\ contains (granted_of ps) s = false) ->
  run (verifyToken token requiredScopes user_cb) w =
    {| completion := Normal tt;
       events := [EvCacheGet (JStr key);
                  EvCallback [errorWithCode "invalid_scope"]];
       store := cache w |}
  /\ own_property (errorWithCode "invalid_scope") "errorCode"
     = Some (JStr "invalid_scope")
  /\ target_calls (events (run (verifyToken token requiredScopes user_cb) w)) = [].
Proof.
  intros Hk He Hm Ht Hp Hscope Hreq Hmiss.
  assert (run (verifyToken token requiredScopes user_cb) w =
          {| completion := Normal tt;
             events := [EvCacheGet (JStr key);
                        EvCallback [errorWithCode "invalid_scope"]];
             store := cache w |}) as Hrun.
  { unfold run, verifyToken.
    rewrite (getCachedToken_hit token key en ps _ (fresh w) Hk He Hm Ht Hp).
    unfold arg. cbn [nth truthy].
    assert (truthy requiredScopes = true) as Htr.
    { destruct requiredScopes; try discriminate Hreq; [|reflexivity].
      simpl in Hreq. simpl. now destruct (negb (String.eqb s "")). }
    rewrite Htr.
    apply difference_keeps_missing in Hmiss.
    unfold get_prop. rewrite residual_keeps_scope.
    unfold scope_is_string_or_absent in Hscope. unfold granted_of in Hmiss.
    destruct requiredScopes; try discriminate Hreq.
    - (* a space-separated string *)
      unfold required_of in Hreq. rewrite Htr in Hreq.
      injection Hreq as <-. unfold split_method at 1. unfold_monad.
      destruct (props_lookup "scope" ps) as [[| | | |s'| | |]|];
        try discriminate Hscope; simpl.
      + destruct (negb (String.eqb s' "")) eqn:Es; simpl in Hmiss |- *;
          rewrite ?Es in Hmiss; simpl in Hmiss; rewrite Hmiss; reflexivity.
      + simpl in Hmiss. rewrite Hmiss. reflexivity.
    - (* an array *)
      simpl in Hreq. injection Hreq as <-. unfold_monad.
      destruct (props_lookup "scope" ps) as [[| | | |s'| | |]|];
        try discriminate Hscope; simpl.
      + destruct (negb (String.eqb s' "")) eqn:Es; simpl in Hmiss |- *;
          rewrite ?Es in Hmiss; simpl in Hmiss; rewrite Hmiss; reflexivity.
      + simpl in Hmiss. rewrite Hmiss. reflexivity. }
  rewrite Hrun. repeat split.
Qed.

Lemma verifyToken_missing_scope_is_invalid_scope_witness :
  let ps := [("access_token", JStr "abc"); ("expires_in", JNum 3600%float);
             ("scope", JStr "read"); ("cached_at", JNum 1000000%float)] in
  let en := {| entry_value := Runtime.stringify (JObj ps); entry_ttl := None |} in
  let c := with_entries (Runtime.empty_cache 60000%float) (<["abc" := en]> ∅) in
  let w := Runtime.world c (fun _ _ => []) (fun _ => 1005000%float) in
  let requiredScopes := JArr [JStr "read"; JStr "write"] [] in
  run (verifyToken (B := Runtime.builtins) (JStr "abc") requiredScopes user_cb) w =
    {| completion := Normal tt;
       events := [EvCacheGet (JStr "abc");
                  EvCallback [errorWithCode "invalid_scope"]];
       store := cache w |}
  /\ own_property (errorWithCode "invalid_scope") "errorCode"
     = Some (JStr "invalid_scope")
  /\ target_calls
       (events (run (verifyToken (B := Runtime.builtins) (JStr "abc") requiredScopes user_cb) w))
     = [].
Proof.
  intros ps en c w requiredScopes.
  apply (verifyToken_missing_scope_is_invalid_scope (B := Runtime.builtins)
           (JStr "abc") requiredScopes "abc" en ps [JStr "read"; JStr "write"] w).
  - constructor.
  - reflexivity.
  - reflexivity.
  - reflexivity.
  - reflexivity.
  - reflexivity.
  - reflexivity.
  - exists (JStr "write"). split; [simpl; auto | reflexivity].
Defined.

(** Whenever the cached lookup hands [verifyToken] no record, be it a miss or
    a store error, the next thing that happens is a call of the target's
    [verifyToken] with the original arguments. *)
Lemma verifyToken_without_reply_calls_target
    `{B : Builtins} (token requiredScopes : JsVal) (key : string) (w : World) :
  names_key token key ->
  (get_error (cache w) = None -> entries (cache w) !! key = None) ->
  exists rest,
    events (run (verifyToken token requiredScopes user_cb) w) =
      EvCacheGet (JStr key) :: EvTarget verifyToken_m [token; requiredScopes] :: rest.
Proof.
  intros Hk Hmiss. unfold run, verifyToken.
  set (k := fun targs : list JsVal =>
              if truthy (arg 0 targs) then user_cb [arg 0 targs]
              else reply <- set_prop (arg 1 targs) "access_token" token ;;
                   cacheToken (arg 0 targs) reply user_cb).
  assert (forall targs, appends (k targs)) as Hk_appends.
  { intros targs. unfold k. destruct (truthy (arg 0 targs)).
    - auto with appends.
    - apply appends_bind; [auto with appends|].
      intros reply. apply appends_cacheToken. auto with appends. }
  assert (forall w0, trace w0 = [EvCacheGet (JStr key)] ->
            exists rest,
              trace (snd ((targs <- target_call verifyToken_m [token; requiredScopes] ;;
                           k targs) w0)) =
              EvCacheGet (JStr key)
                :: EvTarget verifyToken_m [token; requiredScopes] :: rest) as Hgo.
  { intros w0 Hw0. unfold target_call, bind at 1 2, emit.
    match goal with
    | |- context [k ?a ?w1] => destruct (Hk_appends a w1) as [rest Hrest]
    end.
    exists rest. rewrite Hrest. simpl. now rewrite Hw0. }
  destruct (get_error (cache w)) as [e|] eqn:He.
  - rewrite (getCachedToken_store_error token key e _ (fresh w) Hk He).
    destruct (truthy e); unfold arg; cbn [nth truthy]; apply Hgo; reflexivity.
  - rewrite (getCachedToken_miss token key _ (fresh w) Hk He (Hmiss eq_refl)).
    unfold arg; cbn [nth truthy]. apply Hgo. reflexivity.
Qed.

(** C5.  What the code does when the store's [get] reports an error during
    [verifyToken]: the error is dropped and the call is delegated to the
    target like a miss. *)
Theorem verifyToken_store_error_is_treated_as_miss
    `{B : Builtins} (token requiredScopes e : JsVal) (key : string) (w : World) :
  names_key token key ->
  get_error (cache w) = Some e ->
  exists rest,
    events (run (verifyToken token requiredScopes user_cb) w) =
      EvCacheGet (JStr key) :: EvTarget verifyToken_m [token; requiredScopes] :: rest.
Proof.
  intros Hk He. apply verifyToken_without_reply_calls_target; [exact Hk|].
  intros Hnone. congruence.
Qed.

Lemma verifyToken_store_error_is_treated_as_miss_witness :
  let failing := {| options_ttl := 60000%float; options_encoding := JUndefined;
                    entries := ∅;
                    get_error := Some (new_Error "Error" "ECONNREFUSED");
                    set_error := None |} in
  let w := Runtime.world failing (fun _ _ => [JNull; JObj [("scope", JStr "read")]])
             (fun _ => 0%float) in
  exists rest,
    events (run (verifyToken (B := Runtime.builtins) (JStr "abc") JNull user_cb) w) =
      EvCacheGet (JStr "abc") :: EvTarget verifyToken_m [JStr "abc"; JNull] :: rest.
Proof.
  intros failing w.
  apply (verifyToken_store_error_is_treated_as_miss (B := Runtime.builtins)
           (JStr "abc") JNull (new_Error "Error" "ECONNREFUSED") "abc" w).
  - constructor.
  - reflexivity.
Defined.

(** On that input the caller is told the token is valid and never sees the
    store's error. *)
Example verifyToken_store_error_is_lost :
  let failing := {| options_ttl := 60000%float; options_encoding := JUndefined;
                    entries := ∅;
                    get_error := Some (new_Error "Error" "ECONNREFUSED");
                    set_error := None |} in
  let w := Runtime.world failing (fun _ _ => [JNull; JObj [("scope", JStr "read")]])
             (fun _ => 0%float) in
  callbacks (events (run (verifyToken (B := Runtime.builtins) (JStr "abc") JNull user_cb) w)) =
    [[JNull; JObj [("scope", JStr "read"); ("access_token", JStr "abc");
                   ("cached_at", JNum 0%float)]]].
Proof. reflexivity. Qed.

(** *** invalidateToken *)

(** C7.  [invalidateToken] deletes the entry of [options.token], then calls
    the target's [invalidateToken], whose answer reaches the callback as it
    is; a [verifyToken] of that token on the store it leaves gets no hit: its
    lookup is followed by a call of the target. *)
Theorem invalidateToken_deletes_before_target
    `{B : Builtins} (options token : JsVal) (key : string) (w : World) :
  own_property options "token" = Some token ->
  names_key token key ->
  run (invalidateToken options user_cb) w =
    {| completion := Normal tt;
       events := [EvCacheDelete (JStr key);
                  EvTarget invalidateToken_m [options];
                  EvCallback (target w invalidateToken_m [options])];
       store := with_entries (cache w) (delete key (entries (cache w))) |}
  /\ forall (w' : World) (requiredScopes : JsVal),
       cache w' = store (run (invalidateToken options user_cb) w) ->
       exists rest,
         events (run (verifyToken token requiredScopes user_cb) w') =
           EvCacheGet (JStr key)
             :: EvTarget verifyToken_m [token; requiredScopes] :: rest.
Proof.
  intros Hopt Hk.
  assert (run (invalidateToken options user_cb) w =
          {| completion := Normal tt;
             events := [EvCacheDelete (JStr key);
                        EvTarget invalidateToken_m [options];
                        EvCallback (target w invalidateToken_m [options])];
             store := with_entries (cache w) (delete key (entries (cache w))) |})
    as Hrun.
  { unfold run, invalidateToken, deleteCachedToken, get_prop.
    destruct options; try discriminate Hopt; simpl in Hopt;
      rewrite Hopt; unfold cache_delete, target_call; unfold_monad; simpl;
      rewrite (token_key_names _ _ _ Hk); reflexivity. }
  split; [exact Hrun|].
  intros w' requiredScopes Hcache. rewrite Hrun in Hcache. simpl in Hcache.
  apply verifyToken_without_reply_calls_target; [exact Hk|].
  intros _. rewrite Hcache. simpl. apply lookup_delete_eq.
Qed.

Lemma invalidateToken_deletes_before_target_witness :
  let ps := [("access_token", JStr "abc"); ("expires_in", JNum 3600%float);
             ("cached_at", JNum 1000000%float)] in
  let en := {| entry_value := Runtime.stringify (JObj ps); entry_ttl := None |} in
  let c := with_entries (Runtime.empty_cache 60000%float) (<["abc" := en]> ∅) in
  let tgt : Target := fun m _ => match m with
                                | invalidateToken_m => [JNull; JStr "OK"]
                                | _ => [new_Error "Error" "invalid_token"]
                                end in
  let w := Runtime.world c tgt (fun _ => 1005000%float) in
  let options := JObj [("token", JStr "abc"); ("clientId", JStr "id")] in
  run (invalidateToken options user_cb) w =
    {| completion := Normal tt;
       events := [EvCacheDelete (JStr "abc");
                  EvTarget invalidateToken_m [options];
                  EvCallback [JNull; JStr "OK"]];
       store := with_entries (cache w) (delete "abc" (entries (cache w))) |}
  /\ exists rest,
       events (run (verifyToken (B := Runtime.builtins) (JStr "abc") JNull user_cb)
                 (Runtime.world (store (run (invalidateToken options user_cb) w))
                    tgt (fun _ => 1006000%float))) =
         EvCacheGet (JStr "abc") :: EvTarget verifyToken_m [JStr "abc"; JNull] :: rest.
Proof.
  intros ps en c tgt w options.
  destruct (invalidateToken_deletes_before_target (B := Runtime.builtins)
              options (JStr "abc") "abc" w eq_refl (names_key_string "abc"))
    as [Hrun Hafter].
  split; [exact Hrun|].
  apply Hafter. reflexivity.
Defined.

(** *** The callback is not always called once *)

(** After a failed [JSON.parse] the catch block reports the error and does
    not return: the code goes on to read [token.cached_at] with [token] still
    undefined, which throws out of the store's callback. *)
Lemma getCachedToken_parse_failure_reports_then_throws
    `{B : Builtins} (token e : JsVal) (key : string) (en : Entry) (w : World) :
  names_key token key ->
  get_error (cache w) = None ->
  entries (cache w) !! key = Some en ->
  truthy (JStr (entry_value en)) = true ->
  JSON_parse (entry_value en) = inl e ->
  run (getCachedToken token user_cb) w =
    {| completion := Throw (TypeError "Cannot read property cached_at");
       events := [EvCacheGet (JStr key); EvCallback [e; JNull]];
       store := cache w |}.
Proof.
  intros Hk He Hm Ht Hp. unfold run.
  rewrite (getCachedToken_parse_failure token key en e _ (fresh w) Hk He Hm Ht Hp).
  reflexivity.
Qed.

(** C4.  What the code does on a stored value that parses to [null]: reading
    [token.cached_at] throws, and the callback is not called at all. *)
Theorem getCachedToken_null_entry_never_calls_back
    `{B : Builtins} (token : JsVal) (key : string) (en : Entry) (w : World) :
  names_key token key ->
  get_error (cache w) = None ->
  entries (cache w) !! key = Some en ->
  truthy (JStr (entry_value en)) = true ->
  JSON_parse (entry_value en) = inr JNull ->
  run (getCachedToken token user_cb) w =
    {| completion := Throw (TypeError "Cannot read property cached_at");
       events := [EvCacheGet (JStr key)];
       store := cache w |}
  /\ callbacks (events (run (getCachedToken token user_cb) w)) = [].
Proof.
  intros Hk He Hm Ht Hp.
  assert (run (getCachedToken token user_cb) w =
          {| completion := Throw (TypeError "Cannot read property cached_at");
             events := [EvCacheGet (JStr key)];
             store := cache w |}) as Hrun.
  { unfold run.
    rewrite (getCachedToken_not_an_object token key en _ (fresh w) Hk He Hm Ht Hp).
    reflexivity. }
  rewrite Hrun. split; reflexivity.
Qed.

Lemma getCachedToken_null_entry_never_calls_back_witness :
  let en := {| entry_value := "null"; entry_ttl := None |} in
  let c := with_entries (Runtime.empty_cache 60000%float) (<["apiKey:null" := en]> ∅) in
  let w := Runtime.world c (fun _ _ => []) (fun _ => 0%float) in
  run (getCachedToken (B := Runtime.builtins) (JStr "apiKey:null") user_cb) w =
    {| completion := Throw (TypeError "Cannot read property cached_at");
       events := [EvCacheGet (JStr "apiKey:null")];
       store := cache w |}
  /\ callbacks (events (run (getCachedToken (B := Runtime.builtins) (JStr "apiKey:null") user_cb) w)) = [].
Proof.
  intros en c w.
  apply (getCachedToken_null_entry_never_calls_back (B := Runtime.builtins)
           (JStr "apiKey:null") "apiKey:null" en w).
  - constructor.
  - reflexivity.
  - reflexivity.
  - reflexivity.
  - reflexivity.
Defined.

(** The same through the public operations: an API key [null] verified and
    cached by [verifyApiKey], then [verifyToken] of the bearer token
    [apiKey:null] on the same store. *)
Example verifyToken_on_cached_api_key :
  let tgt : Target := fun _ _ => [JNull] in
  let w := Runtime.world (Runtime.empty_cache 60000%float) tgt (fun _ => 0%float) in
  let c := store (run (verifyApiKey "null" JNull user_cb) w) in
  callbacks (events (run (verifyApiKey "null" JNull user_cb) w)) = [[JNull; JBool true]]
  /\ run (verifyToken (B := Runtime.builtins) (JStr "apiKey:null") JNull user_cb)
         (Runtime.world c tgt (fun _ => 0%float)) =
       {| completion := Throw (TypeError "Cannot read property cached_at");
          events := [EvCacheGet (JStr "apiKey:null")];
          store := c |}.
Proof. split; reflexivity. Qed.

(** *** verifyApiKey *)

Lemma verifyApiKey_store_error (apiKey : string) (request e : JsVal) (w : World) :
  get_error (cache w) = Some e ->
  truthy e = true ->
  run (verifyApiKey apiKey request user_cb) w =
    {| completion := Normal tt;
       events := [EvCacheGet (JStr ("apiKey:" +:+ apiKey)); EvCallback [e; JBool false]];
       store := cache w |}.
Proof.
  intros He Ht. unfold run, verifyApiKey, getCachedApiKey, cache_get.
  unfold_monad. simpl. rewrite He. unfold arg. simpl. rewrite !Ht. reflexivity.
Qed.

Lemma verifyApiKey_hit (apiKey : string) (request : JsVal) (en : Entry) (w : World) :
  truthy (JStr apiKey) = true ->
  get_error (cache w) = None ->
  entries (cache w) !! ("apiKey:" +:+ apiKey) = Some en ->
  truthy (JStr (entry_value en)) = true ->
  run (verifyApiKey apiKey request user_cb) w =
    {| completion := Normal tt;
       events := [EvCacheGet (JStr ("apiKey:" +:+ apiKey)); EvCallback [JNull; JBool true]];
       store := cache w |}.
Proof.
  intros Hk He Hm Ht. unfold run, verifyApiKey, getCachedApiKey, cache_get.
  unfold_monad. simpl. rewrite He, Hm. unfold arg. simpl.
  simpl in Ht. rewrite Ht. simpl. simpl in Hk. rewrite Hk. reflexivity.
Qed.

Lemma verifyApiKey_miss (apiKey : string) (request : JsVal) (w : World) :
  get_error (cache w) = None ->
  set_error (cache w) = None ->
  entries (cache w) !! ("apiKey:" +:+ apiKey) = None ->
  let targs := target w verifyApiKey_m [JStr apiKey; request] in
  run (verifyApiKey apiKey request user_cb) w =
    if truthy (arg 0 targs) then
      {| completion := Normal tt;
         events := [EvCacheGet (JStr ("apiKey:" +:+ apiKey));
                    EvTarget verifyApiKey_m [JStr apiKey; request];
                    EvCallback [arg 0 targs]];
         store := cache w |}
    else
      {| completion := Normal tt;
         events := [EvCacheGet (JStr ("apiKey:" +:+ apiKey));
                    EvTarget verifyApiKey_m [JStr apiKey; request];
                    EvCacheSet (JStr ("apiKey:" +:+ apiKey)) (JStr apiKey) None;
                    EvCallback [JNull; JBool (truthy (JStr apiKey))]];
         store := with_entries (cache w)
                    (<["apiKey:" +:+ apiKey :=
                         {| entry_value := apiKey; entry_ttl := None |}]>
                       (entries (cache w))) |}.
Proof.
  intros He Hs Hm targs. unfold run, verifyApiKey, getCachedApiKey, cache_get.
  unfold_monad. simpl. rewrite He, Hm. unfold arg. simpl.
  unfold target_call. unfold_monad. simpl. fold targs.
  destruct (truthy (nth 0 targs JUndefined)) eqn:Et; [reflexivity|].
  unfold cacheApiKey, cache_set. unfold_monad. simpl. rewrite Hs. simpl.
  reflexivity.
Qed.

(** C9, for a non-empty API key.  A store error or a hit goes to the callback
    as [(error, false)] and [(null, true)] with no call of the target.  On a
    miss the target's [verifyApiKey] is called with the key and the request;
    its error goes to the callback; on its success the key is written to the
    store, then the callback receives [(null, true)], and every later call on
    that store answers [(null, true)] without calling the target. *)
Theorem verifyApiKey_is_cache_aside (apiKey : string) (request : JsVal) (w : World) :
  truthy (JStr apiKey) = true ->
  let key := "apiKey:" +:+ apiKey in
  let targs := target w verifyApiKey_m [JStr apiKey; request] in
  (forall e, get_error (cache w) = Some e -> truthy e = true ->
     run (verifyApiKey apiKey request user_cb) w =
       {| completion := Normal tt;
          events := [EvCacheGet (JStr key); EvCallback [e; JBool false]];
          store := cache w |})
  /\ (forall en, get_error (cache w) = None ->
        entries (cache w) !! key = Some en -> truthy (JStr (entry_value en)) = true ->
        run (verifyApiKey apiKey request user_cb) w =
          {| completion := Normal tt;
             events := [EvCacheGet (JStr key); EvCallback [JNull; JBool true]];
             store := cache w |})
  /\ (healthy (cache w) -> entries (cache w) !! key = None ->
        truthy (arg 0 targs) = true ->
        run (verifyApiKey apiKey request user_cb) w =
          {| completion := Normal tt;
             events := [EvCacheGet (JStr key);
                        EvTarget verifyApiKey_m [JStr apiKey; request];
                        EvCallback [arg 0 targs]];
             store := cache w |})
  /\ (healthy (cache w) -> entries (cache w) !! key = None ->
        truthy (arg 0 targs) = false ->
        run (verifyApiKey apiKey request user_cb) w =
          {| completion := Normal tt;
             events := [EvCacheGet (JStr key);
                        EvTarget verifyApiKey_m [JStr apiKey; request];
                        EvCacheSet (JStr key) (JStr apiKey) None;
                        EvCallback [JNull; JBool true]];
             store := with_entries (cache w)
                        (<[key := {| entry_value := apiKey; entry_ttl := None |}]>
                           (entries (cache w))) |}
        /\ forall (w' : World) (request' : JsVal),
             cache w' = store (run (verifyApiKey apiKey request user_cb) w) ->
             run (verifyApiKey apiKey request' user_cb) w' =
               {| completion := Normal tt;
                  events := [EvCacheGet (JStr key); EvCallback [JNull; JBool true]];
                  store := cache w' |}).
Proof.
  intros Hk key targs. split; [|split; [|split]].
  - intros e He Ht. now apply verifyApiKey_store_error.
  - intros en He Hm Ht. now apply (verifyApiKey_hit apiKey request en).
  - intros [He Hs] Hm Ht.
    rewrite (verifyApiKey_miss apiKey request w He Hs Hm). fold targs. now rewrite Ht.
  - intros [He Hs] Hm Ht.
    assert (run (verifyApiKey apiKey request user_cb) w =
            {| completion := Normal tt;
               events := [EvCacheGet (JStr key);
                          EvTarget verifyApiKey_m [JStr apiKey; request];
                          EvCacheSet (JStr key) (JStr apiKey) None;
                          EvCallback [JNull; JBool true]];
               store := with_entries (cache w)
                          (<[key := {| entry_value := apiKey; entry_ttl := None |}]>
                             (entries (cache w))) |}) as Hrun.
    { rewrite (verifyApiKey_miss apiKey request w He Hs Hm).
      fold targs. rewrite Ht, Hk. reflexivity. }
    split; [exact Hrun|].
    intros w' request' Hcache. rewrite Hrun in Hcache. simpl in Hcache.
    apply (verifyApiKey_hit apiKey request'
             {| entry_value := apiKey; entry_ttl := None |}); auto.
    + rewrite Hcache. exact He.
    + rewrite Hcache. simpl. apply lookup_insert_eq.
Qed.

Lemma verifyApiKey_is_cache_aside_witness :
  let tgt : Target := fun _ _ => [JNull] in
  let w := Runtime.world (Runtime.empty_cache 60000%float) tgt (fun _ => 0%float) in
  let request := JObj [("origin", JStr "https://app.example")] in
  let w' := Runtime.world (store (run (verifyApiKey "k-123" request user_cb) w))
              tgt (fun _ => 5000%float) in
  events (run (verifyApiKey "k-123" request user_cb) w) =
    [EvCacheGet (JStr "apiKey:k-123");
     EvTarget verifyApiKey_m [JStr "k-123"; request];
     EvCacheSet (JStr "apiKey:k-123") (JStr "k-123") None;
     EvCallback [JNull; JBool true]]
  /\ events (run (verifyApiKey "k-123" request user_cb) w') =
       [EvCacheGet (JStr "apiKey:k-123"); EvCallback [JNull; JBool true]].
Proof.
  intros tgt w request w'.
  destruct (verifyApiKey_is_cache_aside "k-123" request w eq_refl)
    as (_ & _ & _ & Hmiss).
  destruct (Hmiss (conj eq_refl eq_refl) eq_refl eq_refl) as [Hfirst Hnext].
  split.
  - rewrite Hfirst. reflexivity.
  - rewrite (Hnext w' request eq_refl). reflexivity.
Defined.

(** C9 as stated fails for the empty API key: when the target accepts it, the
    callback is told [(null, false)], and the next call on the store that the
    first one left calls the target again. *)
Lemma verifyApiKey_empty_key_is_never_a_hit :
  let tgt : Target := fun _ _ => [JNull] in
  let w := Runtime.world (Runtime.empty_cache 60000%float) tgt (fun _ => 0%float) in
  let w' := Runtime.world (store (run (verifyApiKey "" JNull user_cb) w))
              tgt (fun _ => 5000%float) in
  events (run (verifyApiKey "" JNull user_cb) w) =
    [EvCacheGet (JStr "apiKey:");
     EvTarget verifyApiKey_m [JStr ""; JNull];
     EvCacheSet (JStr "apiKey:") (JStr "") None;
     EvCallback [JNull; JBool false]]
  /\ entries (cache w') !! "apiKey:" = Some {| entry_value := ""; entry_ttl := None |}
  /\ events (run (verifyApiKey "" JNull user_cb) w') =
       [EvCacheGet (JStr "apiKey:");
        EvTarget verifyApiKey_m [JStr ""; JNull];
        EvCacheSet (JStr "apiKey:") (JStr "") None;
        EvCallback [JNull; JBool false]].
Proof. repeat split. Qed.


(** ** Further properties of the decorator *)

(** *** How often the callback is called *)

Lemma callbacks_app (a b : list Event) :
  callbacks (a ++ b) = callbacks a ++ callbacks b.
Proof. unfold callbacks. apply flat_map_app. Qed.

Ltac close_callback_case :=
  split; [reflexivity|];
  eexists; split; [reflexivity|];
  repeat split; intros;
  try congruence;
  try match goal with
      | H : _ <> _ |- _ => now elim H
      end.

(** X1.  Whatever the error, the token and the state of the store,
    [cacheToken] returns normally and has called the callback exactly once.
    The one call carries: a truthy [err] alone; for a missing token
    ([undefined] or [null]) the TypeError of reading its [access_token]; for
    a string that [Url.parse] refuses, what it threw; and whenever [set] was
    called on a store whose [set] throws, the value thrown. *)
Theorem cacheToken_calls_back_exactly_once
    `{B : Builtins} (err token : JsVal) (w : World) :
  completion (run (cacheToken err token user_cb) w) = Normal tt
  /\ exists args,
       callbacks (events (run (cacheToken err token user_cb) w)) = [args]
       /\ (truthy err = true -> args = [err])
       /\ (truthy err = false -> nullish token = true ->
           args = [TypeError "Cannot read property access_token"])
       /\ (forall e, truthy err = false -> parsed_token token = inl e -> args = [e])
       /\ (forall e,
             store_writes (events (run (cacheToken err token user_cb) w)) <> [] ->
             set_error (cache w) = Some e -> args = [e]).
Proof.
  unfold parsed_token, cacheToken, get_prop, set_prop, cache_set. unfold_monad.
  destruct (truthy err) eqn:Herr.
  { simpl. close_callback_case. }
  destruct token as [| |b|n|s|elems props|props|cls props]; simpl;
    try close_callback_case.
  { (* a string: [Url.parse] throws, or its object has no [access_token] *)
    destruct (Url_parse s) as [e0|u]; simpl; close_callback_case. }
  all: destruct (props_lookup "access_token" props) as [at_|]; simpl;
    try close_callback_case.
  all: destruct (truthy at_); simpl; try close_callback_case.
  all: destruct (set_error (cache w)) as [e0|]; simpl; try close_callback_case.
  all: destruct at_; simpl; close_callback_case.
Qed.

Lemma cacheToken_calls_back_exactly_once_witness :
  let down := new_Error "Error" "store is down" in
  let c := {| options_ttl := 60000%float; options_encoding := JUndefined;
              entries := ∅; get_error := None; set_error := Some down |} in
  let w := Runtime.world c (fun _ _ => []) (fun _ => 0%float) in
  let token := JObj [("access_token", JStr "abc")] in
  callbacks (events (run (cacheToken (B := Runtime.builtins) JNull JUndefined user_cb) w))
    = [[TypeError "Cannot read property access_token"]]
  /\ callbacks (events (run (cacheToken (B := Runtime.builtins) JNull
                                        (JStr "http://%@example.com/") user_cb) w))
     = [[new_Error "URIError" "URI malformed"]]
  /\ callbacks (events (run (cacheToken (B := Runtime.builtins) JNull token user_cb) w))
     = [[down]].
Proof.
  intros down c w token. split; [|split].
  - destruct (cacheToken_calls_back_exactly_once (B := Runtime.builtins)
                JNull JUndefined w) as (_ & args & Hcb & _ & Hmissing & _).
    rewrite Hcb, (Hmissing eq_refl eq_refl). reflexivity.
  - destruct (cacheToken_calls_back_exactly_once (B := Runtime.builtins)
                JNull (JStr "http://%@example.com/") w)
      as (_ & args & Hcb & _ & _ & Hthrown & _).
    rewrite Hcb, (Hthrown (new_Error "URIError" "URI malformed") eq_refl eq_refl).
    reflexivity.
  - destruct (cacheToken_calls_back_exactly_once (B := Runtime.builtins)
                JNull token w) as (_ & args & Hcb & _ & _ & _ & Hset).
    rewrite Hcb, (Hset down); [reflexivity| |reflexivity].
    discriminate.
Defined.

(** X2.  [verifyApiKey] too returns normally with exactly one call of the
    callback, for every key, request, store state and target answer. *)
Theorem verifyApiKey_calls_back_exactly_once
    (apiKey : string) (request : JsVal) (w : World) :
  completion (run (verifyApiKey apiKey request user_cb) w) = Normal tt
  /\ exists args,
       callbacks (events (run (verifyApiKey apiKey request user_cb) w)) = [args].
Proof.
  unfold verifyApiKey, getCachedApiKey, cacheApiKey, cache_get, cache_set,
    target_call. unfold_monad. unfold arg. simpl.
  destruct (get_error (cache w)) as [e|]; simpl.
  { destruct (truthy e) eqn:He; simpl; rewrite ?He; simpl;
      try (split; [reflexivity | eexists; reflexivity]).
    (* a falsy "error" is no error: the lookup counts as a miss *)
    destruct (truthy (nth 0 (target w verifyApiKey_m [JStr apiKey; request]) JUndefined));
      simpl; try (split; [reflexivity | eexists; reflexivity]).
    destruct (set_error (cache w)) as [e'|]; simpl;
      [destruct (truthy e')|]; simpl; split; try reflexivity; eexists; reflexivity. }
  destruct (entries (cache w) !! ("apiKey:" +:+ apiKey)) as [en|]; simpl.
  { destruct (negb (String.eqb (entry_value en) "")); simpl.
    - destruct (negb (String.eqb apiKey "")); simpl;
        try (split; [reflexivity | eexists; reflexivity]).
      destruct (truthy (nth 0 (target w verifyApiKey_m [JStr apiKey; request]) JUndefined));
        simpl; try (split; [reflexivity | eexists; reflexivity]).
      destruct (set_error (cache w)) as [e'|]; simpl;
        [destruct (truthy e')|]; simpl; split; try reflexivity; eexists; reflexivity.
    - destruct (truthy (nth 0 (target w verifyApiKey_m [JStr apiKey; request]) JUndefined));
        simpl; try (split; [reflexivity | eexists; reflexivity]).
      destruct (set_error (cache w)) as [e'|]; simpl;
        [destruct (truthy e')|]; simpl; split; try reflexivity; eexists; reflexivity. }
  destruct (truthy (nth 0 (target w verifyApiKey_m [JStr apiKey; request]) JUndefined));
    simpl; try (split; [reflexivity | eexists; reflexivity]).
  destruct (set_error (cache w)) as [e'|]; simpl;
    [destruct (truthy e')|]; simpl; split; try reflexivity; eexists; reflexivity.
Qed.

(** *** The token-issuing operations *)

(** X3.  When the target of a token-issuing operation reports an error, the
    callback receives that error alone and the store is neither written nor
    read. *)
Theorem issue_target_error_is_propagated
    `{B : Builtins} (m : TargetMethod) (options : JsVal) (w : World) :
  truthy (arg 0 (target w m [options])) = true ->
  run (issue m options user_cb) w =
    {| completion := Normal tt;
       events := [EvTarget m [options];
                  EvCallback [arg 0 (target w m [options])]];
       store := cache w |}.
Proof.
  intros Herr. unfold issue, target_call, cacheToken. unfold_monad. simpl.
  rewrite Herr. reflexivity.
Qed.

Lemma issue_target_error_is_propagated_witness :
  let denied := new_Error "Error" "invalid_client" in
  let w := Runtime.world (Runtime.empty_cache 60000%float) (fun _ _ => [denied])
             (fun _ => 0%float) in
  let options := JObj [("clientId", JStr "id"); ("clientSecret", JStr "wrong")] in
  run (createTokenClientCredentials (B := Runtime.builtins) options user_cb) w =
    {| completion := Normal tt;
       events := [EvTarget createTokenClientCredentials_m [options];
                  EvCallback [denied]];
       store := cache w |}.
Proof.
  intros denied w options.
  apply (issue_target_error_is_propagated (B := Runtime.builtins)
           createTokenClientCredentials_m options w).
  reflexivity.
Defined.

(** [cacheToken] on a cacheable record, for any falsy [err]. *)
Lemma cacheToken_caches_record_after_success
    `{B : Builtins} (err : JsVal) (ps : Props) (key : string) (w : World) :
  truthy err = false ->
  props_lookup "access_token" ps = Some (JStr key) ->
  truthy (JStr key) = true ->
  let stamped := JObj (props_set "cached_at" (JNum (now w)) ps) in
  let opts := ttl_options (cache w) ps in
  run (cacheToken err (JObj ps) user_cb) w =
    {| completion := Normal tt;
       events :=
         [EvCacheSet (JStr key) (JStr (JSON_stringify stamped)) (Some opts);
          EvCallback (match set_error (cache w) with
                      | Some e => [e]
                      | None => [JNull; stamped]
                      end)];
       store :=
         match set_error (cache w) with
         | Some _ => cache w
         | None =>
             with_entries (cache w)
               (<[key := {| entry_value := JSON_stringify stamped;
                            entry_ttl := own_property opts "ttl" |}]>
                  (entries (cache w)))
         end |}.
Proof.
  intros Herr Hat Hkey stamped opts.
  assert (String.eqb key "" = false) as Hk
    by (simpl in Hkey; now destruct (String.eqb key "")).
  unfold cacheToken, get_prop, set_prop, cache_set. unfold_monad. simpl.
  rewrite Herr, Hat. simpl. rewrite Hk. simpl.
  rewrite props_lookup_set_ne by discriminate.
  subst opts. unfold ttl_options.
  destruct (set_error (cache w)) eqn:Hs; simpl;
    destruct (props_lookup "expires_in" ps) as [e|]; simpl;
    try destruct (truthy e); reflexivity.
Qed.

(** X4.  When the store's [set] throws while a token is being cached, the
    exception does not escape: the callback receives it as the error, in
    place of the token, and the store is unchanged. *)
Theorem cacheToken_store_failure_is_reported
    `{B : Builtins} (err e : JsVal) (ps : Props) (key : string) (w : World) :
  truthy err = false ->
  props_lookup "access_token" ps = Some (JStr key) ->
  truthy (JStr key) = true ->
  set_error (cache w) = Some e ->
  completion (run (cacheToken err (JObj ps) user_cb) w) = Normal tt
  /\ callbacks (events (run (cacheToken err (JObj ps) user_cb) w)) = [[e]]
  /\ store (run (cacheToken err (JObj ps) user_cb) w) = cache w.
Proof.
  intros Herr Hat Hkey Hset.
  rewrite (cacheToken_caches_record_after_success err ps key w Herr Hat Hkey).
  rewrite Hset. repeat split.
Qed.

Lemma cacheToken_store_failure_is_reported_witness :
  let down := new_Error "Error" "store is down" in
  let c := {| options_ttl := 60000%float; options_encoding := JUndefined;
              entries := ∅; get_error := None; set_error := Some down |} in
  let w := Runtime.world c (fun _ _ => []) (fun _ => 0%float) in
  let ps := [("access_token", JStr "abc"); ("expires_in", JNum 3600%float)] in
  completion (run (cacheToken (B := Runtime.builtins) JNull (JObj ps) user_cb) w) = Normal tt
  /\ callbacks (events (run (cacheToken (B := Runtime.builtins) JNull (JObj ps) user_cb) w))
     = [[down]]
  /\ store (run (cacheToken (B := Runtime.builtins) JNull (JObj ps) user_cb) w) = cache w.
Proof.
  intros down c w ps.
  apply (cacheToken_store_failure_is_reported (B := Runtime.builtins)
           JNull down ps "abc" w); reflexivity.
Defined.

(** X5.  [cacheToken] touches at most the entry under the token's
    [access_token]: every other key of the store reads as before. *)
Theorem cacheToken_leaves_other_keys
    `{B : Builtins} (err token : JsVal) (k : string) (w : World) :
  own_property token "access_token" <> Some (JStr k) ->
  entries (store (run (cacheToken err token user_cb) w)) !! k = entries (cache w) !! k.
Proof.
  intros Hne.
  unfold cacheToken, get_prop, set_prop, cache_set. unfold_monad.
  destruct (truthy err); [reflexivity|].
  destruct token as [| |b|n|s|elems props|props|cls props]; simpl; try reflexivity.
  { destruct (Url_parse s); reflexivity. }
  all: simpl in Hne;
    destruct (props_lookup "access_token" props) as [at_|]; simpl; try reflexivity.
  all: destruct (truthy at_); simpl; try reflexivity.
  all: destruct (set_error (cache w)); simpl; try reflexivity.
  all: destruct at_; simpl; try reflexivity.
  all: apply lookup_insert_ne; congruence.
Qed.

Lemma cacheToken_leaves_other_keys_witness :
  let old := {| entry_value := "k-123"; entry_ttl := None |} in
  let c := with_entries (Runtime.empty_cache 60000%float) (<["apiKey:k-123" := old]> ∅) in
  let w := Runtime.world c (fun _ _ => []) (fun _ => 0%float) in
  let token := JObj [("access_token", JStr "abc"); ("expires_in", JNum 3600%float)] in
  entries (store (run (cacheToken (B := Runtime.builtins) JNull token user_cb) w))
    !! "apiKey:k-123" = Some old.
Proof.
  intros old c w token.
  rewrite (cacheToken_leaves_other_keys (B := Runtime.builtins) JNull token
             "apiKey:k-123" w).
  - reflexivity.
  - discriminate.
Defined.

(** *** The lookups are read-only *)

Lemma keeps_store_ret {A} (a : A) : keeps_store (ret a).
Proof. intros w. reflexivity. Qed.

Lemma keeps_store_throw {A} e : keeps_store (@throw A e).
Proof. intros w. reflexivity. Qed.

Lemma keeps_store_bind {A C} (m : M A) (k : A -> M C) :
  keeps_store m -> (forall a, keeps_store (k a)) -> keeps_store (bind m k).
Proof.
  intros Hm Hk w. unfold bind. specialize (Hm w).
  destruct (m w) as [[a|e] w1]; simpl in *; [|exact Hm].
  now rewrite Hk.
Qed.

Lemma keeps_store_try_catch {A} (m : M A) (h : JsVal -> M A) :
  keeps_store m -> (forall e, keeps_store (h e)) -> keeps_store (try_catch m h).
Proof.
  intros Hm Hh w. unfold try_catch. specialize (Hm w).
  destruct (m w) as [[a|e] w1]; simpl in *; [exact Hm|].
  now rewrite Hh.
Qed.

Lemma keeps_store_emit e : keeps_store (emit e).
Proof. intros w. reflexivity. Qed.

Lemma keeps_store_get_cache : keeps_store get_cache.
Proof. intros w. reflexivity. Qed.

Lemma keeps_store_Date_getTime : keeps_store Date_getTime.
Proof. intros w. reflexivity. Qed.

Create HintDb keeps_store.

#[local] Hint Resolve keeps_store_ret keeps_store_throw keeps_store_emit
  keeps_store_get_cache keeps_store_Date_getTime : keeps_store.

Ltac keeps_store_step :=
  first [ apply keeps_store_bind; [|intros ?]
        | apply keeps_store_try_catch; [|intros ?]
        | solve [auto with keeps_store]
        | match goal with
          | |- keeps_store (if ?b then _ else _) => destruct b
          | |- keeps_store (match ?x with _ => _ end) => destruct x
          end ].

Lemma keeps_store_cache_get k : keeps_store (cache_get k).
Proof. unfold cache_get. repeat keeps_store_step. Qed.

Lemma keeps_store_user_cb args : keeps_store (user_cb args).
Proof. apply keeps_store_emit. Qed.

Lemma keeps_store_get_prop v k : keeps_store (get_prop v k).
Proof. unfold get_prop. destruct v; auto with keeps_store. Qed.

Lemma keeps_store_set_prop v k x : keeps_store (set_prop v k x).
Proof. unfold set_prop. destruct v; auto with keeps_store. Qed.

Lemma keeps_store_delete_prop v k : keeps_store (delete_prop v k).
Proof. unfold delete_prop. destruct v; auto with keeps_store. Qed.

Lemma keeps_store_toString_method `{B : Builtins} v : keeps_store (toString_method v).
Proof. unfold toString_method. destruct v; auto with keeps_store. Qed.

Lemma keeps_store_split_method v : keeps_store (split_method v).
Proof. unfold split_method. destruct v; auto with keeps_store. Qed.

#[local] Hint Resolve keeps_store_cache_get keeps_store_user_cb keeps_store_get_prop
  keeps_store_set_prop keeps_store_delete_prop keeps_store_toString_method
  keeps_store_split_method : keeps_store.

Lemma keeps_store_getCachedToken `{B : Builtins} token cb :
  (forall args, keeps_store (cb args)) -> keeps_store (getCachedToken token cb).
Proof.
  intros Hcb. unfold getCachedToken, token_key. repeat keeps_store_step.
Qed.

Lemma keeps_store_getCachedApiKey apiKey cb :
  (forall args, keeps_store (cb args)) -> keeps_store (getCachedApiKey apiKey cb).
Proof. intros Hcb. unfold getCachedApiKey. repeat keeps_store_step. Qed.

(** X6.  [getCachedToken] and [getCachedApiKey] never change the store:
    whatever the argument, the stored text and the outcome (hit, miss, store
    error, parse failure, exception), the store after the call is the store
    before it. *)
Theorem cached_lookups_are_read_only
    `{B : Builtins} (token : JsVal) (apiKey : string) (w : World) :
  store (run (getCachedToken token user_cb) w) = cache w
  /\ store (run (getCachedApiKey apiKey user_cb) w) = cache w.
Proof.
  split.
  - apply (keeps_store_getCachedToken token user_cb keeps_store_user_cb (fresh w)).
  - apply (keeps_store_getCachedApiKey apiKey user_cb keeps_store_user_cb (fresh w)).
Qed.

(** *** verifyToken on a hit *)

Lemma difference_empty_when_granted (required granted : list JsVal) :
  (forall s, In s required -> contains granted s = true) ->
  difference required granted = [].
Proof.
  intros Hall. unfold difference.
  induction required as [|x xs IH]; [reflexivity|].
  simpl. rewrite (Hall x) by (left; reflexivity). simpl.
  apply IH. intros s Hs. apply Hall. now right.
Qed.

(** X7.  [verifyToken] on a cached record with no required scopes (a falsy
    [requiredScopes]: absent, [null] or the empty string): the callback
    receives [(null, record)] with the residual lifetime, whatever the
    record's scope is; the target is not called and the store is unchanged. *)
Theorem verifyToken_hit_without_required_scopes
    `{B : Builtins} (token requiredScopes : JsVal) (key : string) (en : Entry)
    (ps : Props) (w : World) :
  names_key token key ->
  get_error (cache w) = None ->
  entries (cache w) !! key = Some en ->
  truthy (JStr (entry_value en)) = true ->
  JSON_parse (entry_value en) = inr (JObj ps) ->
  truthy requiredScopes = false ->
  run (verifyToken token requiredScopes user_cb) w =
    {| completion := Normal tt;
       events := [EvCacheGet (JStr key);
                  EvCallback [JNull; JObj (residual (now w) ps)]];
       store := cache w |}.
Proof.
  intros Hk He Hm Ht Hp Hreq. unfold run, verifyToken.
  rewrite (getCachedToken_hit token key en ps _ (fresh w) Hk He Hm Ht Hp).
  unfold arg. cbn [nth truthy]. rewrite Hreq. reflexivity.
Qed.

Lemma verifyToken_hit_without_required_scopes_witness :
  let ps := [("access_token", JStr "abc"); ("expires_in", JNum 3600%float);
             ("scope", JStr "read"); ("cached_at", JNum 1000000%float)] in
  let en := {| entry_value := Runtime.stringify (JObj ps); entry_ttl := None |} in
  let c := with_entries (Runtime.empty_cache 60000%float) (<["abc" := en]> ∅) in
  let w := Runtime.world c (fun _ _ => []) (fun _ => 1005000%float) in
  run (verifyToken (B := Runtime.builtins) (JStr "abc") JNull user_cb) w =
    {| completion := Normal tt;
       events := [EvCacheGet (JStr "abc");
                  EvCallback [JNull;
                              JObj [("access_token", JStr "abc");
                                    ("expires_in", JNum 3595%float);
                                    ("scope", JStr "read")]]];
       store := cache w |}.
Proof.
  intros ps en c w.
  apply (verifyToken_hit_without_required_scopes (B := Runtime.builtins)
           (JStr "abc") JNull "abc" en ps w).
  - constructor.
  - reflexivity.
  - reflexivity.
  - reflexivity.
  - reflexivity.
  - reflexivity.
Defined.

(** X8.  [verifyToken] on a cached record all of whose required scopes are
    granted: the callback receives [(null, record)], the target is not
    called and the store is unchanged. *)
Theorem verifyToken_hit_with_granted_scopes
    `{B : Builtins} (token requiredScopes : JsVal) (key : string) (en : Entry)
    (ps : Props) (required : list JsVal) (w : World) :
  names_key token key ->
  get_error (cache w) = None ->
  entries (cache w) !! key = Some en ->
  truthy (JStr (entry_value en)) = true ->
  JSON_parse (entry_value en) = inr (JObj ps) ->
  scope_is_string_or_absent ps = true ->
  required_of requiredScopes = Some required ->
  (forall s, In s required -> contains (granted_of ps) s = true) ->
  run (verifyToken token requiredScopes user_cb) w =
    {| completion := Normal tt;
       events := [EvCacheGet (JStr key);
                  EvCallback [JNull; JObj (residual (now w) ps)]];
       store := cache w |}.
Proof.
  intros Hk He Hm Ht Hp Hscope Hreq Hall. unfold run, verifyToken.
  rewrite (getCachedToken_hit token key en ps _ (fresh w) Hk He Hm Ht Hp).
  unfold arg. cbn [nth truthy].
  assert (truthy requiredScopes = true) as Htr.
  { destruct requiredScopes; try discriminate Hreq; [|reflexivity].
    simpl in Hreq. simpl. now destruct (negb (String.eqb s "")). }
  rewrite Htr.
  apply difference_empty_when_granted in Hall.
  unfold get_prop. rewrite residual_keeps_scope.
  unfold scope_is_string_or_absent in Hscope. unfold granted_of in Hall.
  destruct requiredScopes; try discriminate Hreq.
  - unfold required_of in Hreq. rewrite Htr in Hreq.
    injection Hreq as <-. unfold split_method at 1. unfold_monad.
    destruct (props_lookup "scope" ps) as [[| | | |s'| | |]|];
      try discriminate Hscope; simpl.
    + destruct (negb (String.eqb s' "")) eqn:Es; simpl in Hall |- *;
        rewrite ?Es in Hall; simpl in Hall; rewrite Hall; reflexivity.
    + simpl in Hall. rewrite Hall. reflexivity.
  - simpl in Hreq. injection Hreq as <-. unfold_monad.
    destruct (props_lookup "scope" ps) as [[| | | |s'| | |]|];
      try discriminate Hscope; simpl.
    + destruct (negb (String.eqb s' "")) eqn:Es; simpl in Hall |- *;
        rewrite ?Es in Hall; simpl in Hall; rewrite Hall; reflexivity.
    + simpl in Hall. rewrite Hall. reflexivity.
Qed.

Lemma verifyToken_hit_with_granted_scopes_witness :
  let ps := [("access_token", JStr "abc"); ("expires_in", JNum 3600%float);
             ("scope", JStr "read write admin"); ("cached_at", JNum 1000000%float)] in
  let en := {| entry_value := Runtime.stringify (JObj ps); entry_ttl := None |} in
  let c := with_entries (Runtime.empty_cache 60000%float) (<["abc" := en]> ∅) in
  let w := Runtime.world c (fun _ _ => []) (fun _ => 1005000%float) in
  run (verifyToken (B := Runtime.builtins) (JStr "abc") (JStr "write read") user_cb) w =
    {| completion := Normal tt;
       events := [EvCacheGet (JStr "abc");
                  EvCallback [JNull;
                              JObj [("access_token", JStr "abc");
                                    ("expires_in", JNum 3595%float);
                                    ("scope", JStr "read write admin")]]];
       store := cache w |}.
Proof.
  intros ps en c w.
  apply (verifyToken_hit_with_granted_scopes (B := Runtime.builtins)
           (JStr "abc") (JStr "write read") "abc" en ps
           [JStr "write"; JStr "read"] w).
  - constructor.
  - reflexivity.
  - reflexivity.
  - reflexivity.
  - reflexivity.
  - reflexivity.
  - reflexivity.
  - intros s [<-|[<-|[]]]; reflexivity.
Defined.

(** *** verifyToken on a miss *)

(** [cacheToken] on a cacheable record, in any world. *)
Lemma cacheToken_caches_record_in_world
    `{B : Builtins} (err : JsVal) (ps : Props) (key : string) (w : World) :
  truthy err = false ->
  props_lookup "access_token" ps = Some (JStr key) ->
  truthy (JStr key) = true ->
  set_error (cache w) = None ->
  let stamped := JObj (props_set "cached_at" (JNum (now w)) ps) in
  let opts := ttl_options (cache w) ps in
  cacheToken err (JObj ps) user_cb w =
    (Normal tt,
     {| cache := with_entries (cache w)
                   (<[key := {| entry_value := JSON_stringify stamped;
                                entry_ttl := own_property opts "ttl" |}]>
                      (entries (cache w)));
        target := target w; clock := clock w; ticks := S (ticks w);
        trace := trace w ++
                 [EvCacheSet (JStr key) (JStr (JSON_stringify stamped)) (Some opts);
                  EvCallback [JNull; stamped]] |}).
Proof.
  intros Herr Hat Hkey Hset stamped opts.
  assert (String.eqb key "" = false) as Hk
    by (simpl in Hkey; now destruct (String.eqb key "")).
  unfold cacheToken, get_prop, set_prop, cache_set. unfold_monad. simpl.
  rewrite Herr, Hat. simpl. rewrite Hk. simpl.
  rewrite props_lookup_set_ne by discriminate.
  subst opts. unfold ttl_options. rewrite Hset.
  destruct (props_lookup "expires_in" ps) as [e|]; simpl;
    try destruct (truthy e); simpl; rewrite <- app_assoc; reflexivity.
Qed.

(** X9.  [verifyToken] of a token string that is not cached, when the target
    accepts it with a record: the record gets [access_token] set to the token
    string and is cached under it (stamped with [cached_at]); the callback
    receives [(null, that stamped record)].  If the stored JSON reads back,
    every later [verifyToken] of the string without required scopes on that
    store is answered from the store, with no call of the target. *)
Theorem verifyToken_miss_caches_target_reply
    `{B : Builtins} (key : string) (requiredScopes : JsVal) (rps : Props) (w : World) :
  truthy (JStr key) = true ->
  healthy (cache w) ->
  entries (cache w) !! key = None ->
  truthy (arg 0 (target w verifyToken_m [JStr key; requiredScopes])) = false ->
  arg 1 (target w verifyToken_m [JStr key; requiredScopes]) = JObj rps ->
  let record := props_set "access_token" (JStr key) rps in
  let stamped := props_set "cached_at" (JNum (now w)) record in
  run (verifyToken (JStr key) requiredScopes user_cb) w =
    {| completion := Normal tt;
       events :=
         [EvCacheGet (JStr key);
          EvTarget verifyToken_m [JStr key; requiredScopes];
          EvCacheSet (JStr key) (JStr (JSON_stringify (JObj stamped)))
            (Some (ttl_options (cache w) record));
          EvCallback [JNull; JObj stamped]];
       store :=
         with_entries (cache w)
           (<[key := {| entry_value := JSON_stringify (JObj stamped);
                        entry_ttl := own_property (ttl_options (cache w) record) "ttl" |}]>
              (entries (cache w))) |}
  /\ (JSON_round_trips (JObj stamped) ->
      forall (w' : World) (requiredScopes' : JsVal),
        cache w' = store (run (verifyToken (JStr key) requiredScopes user_cb) w) ->
        truthy requiredScopes' = false ->
        run (verifyToken (JStr key) requiredScopes' user_cb) w' =
          {| completion := Normal tt;
             events := [EvCacheGet (JStr key);
                        EvCallback [JNull; JObj (residual (now w') stamped)]];
             store := cache w' |}).
Proof.
  intros Hkey [Hget Hset] Hmiss Herr Hreply record stamped.
  assert (run (verifyToken (JStr key) requiredScopes user_cb) w =
    {| completion := Normal tt;
       events :=
         [EvCacheGet (JStr key);
          EvTarget verifyToken_m [JStr key; requiredScopes];
          EvCacheSet (JStr key) (JStr (JSON_stringify (JObj stamped)))
            (Some (ttl_options (cache w) record));
          EvCallback [JNull; JObj stamped]];
       store :=
         with_entries (cache w)
           (<[key := {| entry_value := JSON_stringify (JObj stamped);
                        entry_ttl := own_property (ttl_options (cache w) record) "ttl" |}]>
              (entries (cache w))) |}) as Hrun.
  { unfold run, verifyToken.
    rewrite (getCachedToken_miss (JStr key) key _ (fresh w)
               (names_key_string key) Hget Hmiss).
    unfold arg in *. cbn [nth truthy]. unfold target_call, bind, emit, fresh.
    cbn [cache target clock ticks trace logged fst snd].
    rewrite Herr, Hreply. cbn [set_prop]. unfold ret. fold record.
    rewrite (cacheToken_caches_record_in_world _ record key); try assumption.
    - reflexivity.
    - apply props_lookup_set_eq. }
  split; [exact Hrun|].
  intros [Htext Hparse] w' requiredScopes' Hcache Hfalsy.
  rewrite Hrun in Hcache. simpl in Hcache.
  unfold run, verifyToken.
  rewrite (getCachedToken_hit (JStr key) key
             {| entry_value := JSON_stringify (JObj stamped);
                entry_ttl := own_property (ttl_options (cache w) record) "ttl" |}
             stamped _ (fresh w')); try assumption.
  - unfold arg. cbn [nth truthy]. rewrite Hfalsy. reflexivity.
  - constructor.
  - simpl. now rewrite Hcache.
  - simpl. rewrite Hcache. simpl. apply lookup_insert_eq.
Qed.

Lemma verifyToken_miss_caches_target_reply_witness :
  let tgt : Target := fun _ _ => [JNull; JObj [("scope", JStr "read");
                                               ("expires_in", JNum 3600%float)]] in
  let w := Runtime.world (Runtime.empty_cache 60000%float) tgt
             (fun _ => 1000000%float) in
  let w' := Runtime.world
              (store (run (verifyToken (B := Runtime.builtins) (JStr "abc") JNull user_cb) w))
              tgt (fun _ => 1005000%float) in
  callbacks (events (run (verifyToken (B := Runtime.builtins) (JStr "abc") JNull user_cb) w)) =
    [[JNull; JObj [("scope", JStr "read"); ("expires_in", JNum 3600%float);
                   ("access_token", JStr "abc"); ("cached_at", JNum 1000000%float)]]]
  /\ events (run (verifyToken (B := Runtime.builtins) (JStr "abc") JNull user_cb) w') =
       [EvCacheGet (JStr "abc");
        EvCallback [JNull; JObj [("scope", JStr "read"); ("expires_in", JNum 3595%float);
                                 ("access_token", JStr "abc")]]].
Proof.
  intros tgt w w'.
  destruct (verifyToken_miss_caches_target_reply (B := Runtime.builtins)
              "abc" JNull
              [("scope", JStr "read"); ("expires_in", JNum 3600%float)] w
              eq_refl (conj eq_refl eq_refl) eq_refl eq_refl eq_refl)
    as [Hfirst Hnext].
  split.
  - rewrite Hfirst. reflexivity.
  - rewrite (Hnext (conj eq_refl eq_refl) w' JNull eq_refl eq_refl). reflexivity.
Defined.

(** X10.  [verifyToken] of a token that is not served from the store (a miss
    or a store error), when the target rejects it: the callback receives the
    target's error alone and nothing is written to the store. *)
Theorem verifyToken_target_error_is_propagated
    `{B : Builtins} (token requiredScopes : JsVal) (key : string) (w : World) :
  names_key token key ->
  (get_error (cache w) = None -> entries (cache w) !! key = None) ->
  truthy (arg 0 (target w verifyToken_m [token; requiredScopes])) = true ->
  run (verifyToken token requiredScopes user_cb) w =
    {| completion := Normal tt;
       events := [EvCacheGet (JStr key);
                  EvTarget verifyToken_m [token; requiredScopes];
                  EvCallback [arg 0 (target w verifyToken_m [token; requiredScopes])]];
       store := cache w |}.
Proof.
  intros Hk Hmiss Herr. unfold run, verifyToken.
  destruct (get_error (cache w)) as [e|] eqn:He.
  - rewrite (getCachedToken_store_error token key e _ (fresh w) Hk He).
    destruct (truthy e); unfold arg in *; cbn [nth truthy];
      unfold target_call, bind, emit, fresh;
      cbn [cache target clock ticks trace logged fst snd];
      rewrite Herr; reflexivity.
  - rewrite (getCachedToken_miss token key _ (fresh w) Hk He (Hmiss eq_refl)).
    unfold arg in *; cbn [nth truthy].
    unfold target_call, bind, emit, fresh.
    cbn [cache target clock ticks trace logged fst snd].
    rewrite Herr. reflexivity.
Qed.

Lemma verifyToken_target_error_is_propagated_witness :
  let invalid := new_Error "Error" "invalid_token" in
  let w := Runtime.world (Runtime.empty_cache 60000%float) (fun _ _ => [invalid])
             (fun _ => 0%float) in
  run (verifyToken (B := Runtime.builtins) (JStr "abc") (JStr "read") user_cb) w =
    {| completion := Normal tt;
       events := [EvCacheGet (JStr "abc");
                  EvTarget verifyToken_m [JStr "abc"; JStr "read"];
                  EvCallback [invalid]];
       store := cache w |}.
Proof.
  intros invalid w.
  apply (verifyToken_target_error_is_propagated (B := Runtime.builtins)
           (JStr "abc") (JStr "read") "abc" w).
  - constructor.
  - reflexivity.
  - reflexivity.
Defined.

(** X11.  [verifyToken] of a token that is not served from the store, when
    the target reports success but passes no record ([undefined] or [null]):
    the assignment [reply.access_token = token] throws, so the call ends in a
    TypeError and the callback is never called. *)
Theorem verifyToken_target_success_without_record_throws
    `{B : Builtins} (token requiredScopes : JsVal) (key : string) (w : World) :
  names_key token key ->
  (get_error (cache w) = None -> entries (cache w) !! key = None) ->
  truthy (arg 0 (target w verifyToken_m [token; requiredScopes])) = false ->
  nullish (arg 1 (target w verifyToken_m [token; requiredScopes])) = true ->
  run (verifyToken token requiredScopes user_cb) w =
    {| completion := Throw (TypeError "Cannot set property access_token");
       events := [EvCacheGet (JStr key);
                  EvTarget verifyToken_m [token; requiredScopes]];
       store := cache w |}.
Proof.
  intros Hk Hmiss Herr Hnull. unfold run, verifyToken.
  assert (forall w0 : World,
            set_prop (arg 1 (target w verifyToken_m [token; requiredScopes]))
              "access_token" token w0 =
            (Throw (TypeError "Cannot set property access_token"), w0)) as Hset.
  { intros w0.
    destruct (arg 1 (target w verifyToken_m [token; requiredScopes]));
      try discriminate Hnull; reflexivity. }
  destruct (get_error (cache w)) as [e|] eqn:He.
  - rewrite (getCachedToken_store_error token key e _ (fresh w) Hk He).
    destruct (truthy e); unfold arg in *; cbn [nth truthy];
      unfold target_call, bind, emit, fresh;
      cbn [cache target clock ticks trace logged fst snd];
      rewrite Herr, Hset; reflexivity.
  - rewrite (getCachedToken_miss token key _ (fresh w) Hk He (Hmiss eq_refl)).
    unfold arg in *; cbn [nth truthy].
    unfold target_call, bind, emit, fresh.
    cbn [cache target clock ticks trace logged fst snd].
    rewrite Herr, Hset. reflexivity.
Qed.

Lemma verifyToken_target_success_without_record_throws_witness :
  let w := Runtime.world (Runtime.empty_cache 60000%float) (fun _ _ => [JNull])
             (fun _ => 0%float) in
  run (verifyToken (B := Runtime.builtins) (JStr "abc") JNull user_cb) w =
    {| completion := Throw (TypeError "Cannot set property access_token");
       events := [EvCacheGet (JStr "abc");
                  EvTarget verifyToken_m [JStr "abc"; JNull]];
       store := cache w |}.
Proof.
  intros w.
  apply (verifyToken_target_success_without_record_throws (B := Runtime.builtins)
           (JStr "abc") JNull "abc" w).
  - constructor.
  - reflexivity.
  - reflexivity.
  - reflexivity.
Defined.

(** *** Issuing, then verifying *)

(** X12.  A token issued through the decorator is served from the store
    afterwards: when the target of a token-issuing operation answers with a
    record that carries a non-empty [access_token] string, the record is
    cached under it, and (the stored JSON reading back) a later
    [verifyToken] of that string without required scopes calls back with the
    record and its residual lifetime, without calling the target. *)
Theorem issue_then_verifyToken_is_served_from_store
    `{B : Builtins} (m : TargetMethod) (options requiredScopes : JsVal)
    (ps : Props) (key : string) (w w' : World) :
  healthy (cache w) ->
  truthy (arg 0 (target w m [options])) = false ->
  arg 1 (target w m [options]) = JObj ps ->
  props_lookup "access_token" ps = Some (JStr key) ->
  truthy (JStr key) = true ->
  JSON_round_trips (JObj (props_set "cached_at" (JNum (now w)) ps)) ->
  cache w' = store (run (issue m options user_cb) w) ->
  truthy requiredScopes = false ->
  callbacks (events (run (issue m options user_cb) w)) =
    [[JNull; JObj (props_set "cached_at" (JNum (now w)) ps)]]
  /\ run (verifyToken (JStr key) requiredScopes user_cb) w' =
       {| completion := Normal tt;
          events :=
            [EvCacheGet (JStr key);
             EvCallback [JNull;
                         JObj (residual (now w')
                                 (props_set "cached_at" (JNum (now w)) ps))]];
          store := cache w' |}.
Proof.
  intros [Hget Hset] Herr Hreply Hat Hkey [Htext Hparse] Hcache Hfalsy.
  set (stamped := props_set "cached_at" (JNum (now w)) ps) in *.
  assert (run (issue m options user_cb) w =
          {| completion := Normal tt;
             events := [EvTarget m [options];
                        EvCacheSet (JStr key) (JStr (JSON_stringify (JObj stamped)))
                          (Some (ttl_options (cache w) ps));
                        EvCallback [JNull; JObj stamped]];
             store := with_entries (cache w)
                        (<[key := {| entry_value := JSON_stringify (JObj stamped);
                                     entry_ttl := own_property (ttl_options (cache w) ps) "ttl" |}]>
                           (entries (cache w))) |}) as Hrun.
  { unfold run, issue, target_call, bind, emit, fresh.
    cbn [cache target clock ticks trace fst snd].
    rewrite Hreply.
    rewrite (cacheToken_caches_record_in_world _ ps key); try assumption.
    reflexivity. }
  rewrite Hrun in Hcache |- *. simpl in Hcache. split; [reflexivity|].
  unfold run, verifyToken.
  rewrite (getCachedToken_hit (JStr key) key
             {| entry_value := JSON_stringify (JObj stamped);
                entry_ttl := own_property (ttl_options (cache w) ps) "ttl" |}
             stamped _ (fresh w')); try assumption.
  - unfold arg. cbn [nth truthy]. rewrite Hfalsy. reflexivity.
  - constructor.
  - simpl. now rewrite Hcache.
  - simpl. rewrite Hcache. simpl. apply lookup_insert_eq.
Qed.

Lemma issue_then_verifyToken_is_served_from_store_witness :
  let ps := [("access_token", JStr "abc"); ("token_type", JStr "bearer");
             ("expires_in", JNum 3600%float)] in
  let tgt : Target := fun _ _ => [JNull; JObj ps] in
  let w := Runtime.world (Runtime.empty_cache 60000%float) tgt
             (fun _ => 1000000%float) in
  let options := JObj [("clientId", JStr "id"); ("clientSecret", JStr "secret")] in
  let w' := Runtime.world
              (store (run (refreshToken (B := Runtime.builtins) options user_cb) w))
              tgt (fun _ => 1002500%float) in
  callbacks (events (run (refreshToken (B := Runtime.builtins) options user_cb) w)) =
    [[JNull; JObj (ps ++ [("cached_at", JNum 1000000%float)])]]
  /\ run (verifyToken (B := Runtime.builtins) (JStr "abc") JNull user_cb) w' =
       {| completion := Normal tt;
          events :=
            [EvCacheGet (JStr "abc");
             EvCallback [JNull;
                         JObj [("access_token", JStr "abc"); ("token_type", JStr "bearer");
                               ("expires_in", JNum 3597.5%float)]]];
          store := cache w' |}.
Proof.
  intros ps tgt w options w'.
  apply (issue_then_verifyToken_is_served_from_store (B := Runtime.builtins)
           refreshToken_m options JNull ps "abc" w w').
  - split; reflexivity.
  - reflexivity.
  - reflexivity.
  - reflexivity.
  - reflexivity.
  - split; reflexivity.
  - reflexivity.
  - reflexivity.
Defined.

(** *** Invalidation *)

(** X13.  [invalidateToken] with options that carry no [token]: reading
    [access_token] of the missing token throws, so the call ends in a
    TypeError before the store or the target is reached, and the callback is
    never called. *)
Theorem invalidateToken_without_token_throws
    (options : JsVal) (w : World) :
  nullish options = false ->
  own_property options "token" = None ->
  run (invalidateToken options user_cb) w =
    {| completion := Throw (TypeError "Cannot read property access_token");
       events := [];
       store := cache w |}.
Proof.
  intros Hnull Hnone.
  unfold invalidateToken, deleteCachedToken, token_key, get_prop.
  destruct options; try discriminate Hnull; simpl in Hnone;
    rewrite ?Hnone; reflexivity.
Qed.

Lemma invalidateToken_without_token_throws_witness :
  let options := JObj [("clientId", JStr "id"); ("clientSecret", JStr "secret")] in
  let w := Runtime.world (Runtime.empty_cache 60000%float) (fun _ _ => [JNull])
             (fun _ => 0%float) in
  run (invalidateToken options user_cb) w =
    {| completion := Throw (TypeError "Cannot read property access_token");
       events := [];
       store := cache w |}.
Proof.
  intros options w.
  apply (invalidateToken_without_token_throws options w); reflexivity.
Defined.

(** X14.  [invalidateToken] removes the entry of its token and no other: a
    different key reads as before, and invalidating a token that is not in
    the store leaves every key as it was while the target is still called. *)
Theorem invalidateToken_leaves_other_keys
    (options token : JsVal) (key k : string) (w : World) :
  own_property options "token" = Some token ->
  names_key token key ->
  entries (store (run (invalidateToken options user_cb) w)) !! k =
    (if String.eqb k key then None else entries (cache w) !! k)
  /\ target_calls (events (run (invalidateToken options user_cb) w)) =
       [(invalidateToken_m, [options])].
Proof.
  intros Hopt Hk.
  assert (run (invalidateToken options user_cb) w =
          {| completion := Normal tt;
             events := [EvCacheDelete (JStr key);
                        EvTarget invalidateToken_m [options];
                        EvCallback (target w invalidateToken_m [options])];
             store := with_entries (cache w) (delete key (entries (cache w))) |})
    as Hrun.
  { unfold run, invalidateToken, deleteCachedToken, get_prop.
    destruct options; try discriminate Hopt; simpl in Hopt;
      rewrite Hopt; unfold cache_delete, target_call; unfold_monad; simpl;
      rewrite (token_key_names _ _ _ Hk); reflexivity. }
  rewrite Hrun. split; [|reflexivity]. simpl.
  destruct (String.eqb k key) eqn:E.
  - apply String.eqb_eq in E. subst k. apply lookup_delete_eq.
  - apply String.eqb_neq in E. apply lookup_delete_ne. congruence.
Qed.

Lemma invalidateToken_leaves_other_keys_witness :
  let other := {| entry_value := "k-123"; entry_ttl := None |} in
  let c := with_entries (Runtime.empty_cache 60000%float) (<["apiKey:k-123" := other]> ∅) in
  let w := Runtime.world c (fun _ _ => [JNull]) (fun _ => 0%float) in
  let options := JObj [("token", JObj [("access_token", JStr "abc")])] in
  entries (store (run (invalidateToken options user_cb) w)) !! "apiKey:k-123" = Some other
  /\ target_calls (events (run (invalidateToken options user_cb) w)) =
       [(invalidateToken_m, [options])].
Proof.
  intros other c w options.
  destruct (invalidateToken_leaves_other_keys options
              (JObj [("access_token", JStr "abc")]) "abc" "apiKey:k-123" w
              eq_refl (names_key_record [("access_token", JStr "abc")] "abc" eq_refl))
    as [Hkeep Hcall].
  split; [|exact Hcall]. rewrite Hkeep. reflexivity.
Defined.

(** *** The TTL against the ceiling, and a missing lifetime *)

Lemma SFcompare_antisym (x y : spec_float) :
  SFcompare y x = option_map CompOpp (SFcompare x y).
Proof.
  destruct x as [sx|sx| |sx mx ex], y as [sy|sy| |sy my ey]; simpl;
    try reflexivity;
    try (destruct sx; reflexivity); try (destruct sy; reflexivity);
    try (destruct sx, sy; reflexivity).
  destruct sx, sy; simpl; try reflexivity;
    rewrite (Z.compare_antisym ex ey); destruct (ex ?= ey)%Z; simpl;
    try reflexivity;
    pose proof (Pos.compare_cont_antisym mx my Eq) as A; simpl in A;
    rewrite <- A; destruct (Pos.compare_cont Eq mx my); reflexivity.
Qed.

Lemma SFcompare_Lt_not_nan (x y : spec_float) :
  SFcompare x y = Some Lt -> SFcompare x x = Some Eq /\ SFcompare y y = Some Eq.
Proof.
  assert (forall z, z <> S754_nan -> SFcompare z z = Some Eq) as R.
  { intros [s|s| |s m e] Hz; simpl; try congruence.
    - destruct s; reflexivity.
    - rewrite Z.compare_refl.
      assert (Pos.compare_cont Eq m m = Eq) as -> by apply Pos.compare_refl.
      destruct s; reflexivity. }
  intros H. split; apply R; intros Hn; rewrite Hn in H.
  - discriminate H.
  - destruct x; discriminate H.
Qed.

(** [a < b] holds of two numbers only: neither is NaN, and not [b < a]. *)
Lemma ltb_excludes (a b : float) :
  PrimFloat.ltb a b = true ->
  PrimFloat.is_nan a = false /\ PrimFloat.is_nan b = false
  /\ PrimFloat.ltb b a = false.
Proof.
  rewrite FloatAxioms.ltb_spec. unfold SFltb. intros H.
  destruct (SFcompare (Prim2SF a) (Prim2SF b)) as [[]|] eqn:E; try discriminate.
  destruct (SFcompare_Lt_not_nan _ _ E) as [Ha Hb].
  unfold PrimFloat.is_nan. rewrite !FloatAxioms.eqb_spec. unfold SFeqb.
  rewrite Ha, Hb. repeat split. rewrite FloatAxioms.ltb_spec. unfold SFltb.
  rewrite (SFcompare_antisym (Prim2SF a) (Prim2SF b)), E. reflexivity.
Qed.

Lemma Math_min_right (a b : float) : PrimFloat.ltb b a = true -> Math_min a b = b.
Proof.
  intros H. destruct (ltb_excludes _ _ H) as (Hb & Ha & Hab).
  unfold Math_min. now rewrite Ha, Hb, Hab, H.
Qed.

Lemma Math_min_left (a b : float) : PrimFloat.ltb a b = true -> Math_min a b = a.
Proof.
  intros H. destruct (ltb_excludes _ _ H) as (Ha & Hb & _).
  unfold Math_min. now rewrite Ha, Hb, H.
Qed.

Lemma sub_nan_is_nan (x : float) :
  PrimFloat.is_nan (PrimFloat.sub PrimFloat.nan x) = true.
Proof.
  unfold PrimFloat.is_nan. rewrite FloatAxioms.eqb_spec, FloatAxioms.sub_spec.
  change (Prim2SF PrimFloat.nan) with S754_nan.
  destruct (Prim2SF x); reflexivity.
Qed.

(** X15.  A token whose lifetime [expires_in * 1000] exceeds the store's
    ceiling [cache.options.ttl] is written with the ceiling as its TTL, and
    that is the TTL of the entry the store keeps. *)
Theorem cacheToken_longer_lifetime_gets_the_ceiling
    `{B : Builtins} (ps : Props) (key : string) (expires_in : JsVal) (w : World) :
  props_lookup "access_token" ps = Some (JStr key) ->
  truthy (JStr key) = true ->
  props_lookup "expires_in" ps = Some expires_in ->
  truthy expires_in = true ->
  set_error (cache w) = None ->
  PrimFloat.ltb (options_ttl (cache w))
                (PrimFloat.mul (ToNumber expires_in) 1000%float) = true ->
  (exists value,
     store_writes (events (run (cacheToken JNull (JObj ps) user_cb) w)) =
       [EvCacheSet (JStr key) value
          (Some (JObj [("ttl", JNum (options_ttl (cache w)))]))])
  /\ entry_ttl <$> entries (store (run (cacheToken JNull (JObj ps) user_cb) w)) !! key
     = Some (Some (JNum (options_ttl (cache w)))).
Proof.
  intros Hat Hkey Hexp Htruthy Hset Hlt.
  rewrite (cacheToken_caches_record_after_success JNull ps key w eq_refl Hat Hkey).
  rewrite Hset. unfold ttl_options. rewrite Hexp, Htruthy.
  unfold thousand. rewrite (Math_min_right _ _ Hlt). simpl. split.
  - eexists. reflexivity.
  - rewrite lookup_insert_eq. reflexivity.
Qed.

Lemma cacheToken_longer_lifetime_gets_the_ceiling_witness :
  let ps := [("access_token", JStr "abc"); ("expires_in", JNum 3600%float)] in
  let w := Runtime.world (Runtime.empty_cache 60000%float) (fun _ _ => [])
             (fun _ => 0%float) in
  (exists value,
     store_writes (events (run (cacheToken (B := Runtime.builtins) JNull (JObj ps) user_cb) w)) =
       [EvCacheSet (JStr "abc") value (Some (JObj [("ttl", JNum 60000%float)]))])
  /\ entry_ttl <$> entries (store (run (cacheToken (B := Runtime.builtins) JNull (JObj ps) user_cb) w))
                     !! "abc"
     = Some (Some (JNum 60000%float)).
Proof.
  intros ps w.
  apply (cacheToken_longer_lifetime_gets_the_ceiling (B := Runtime.builtins)
           ps "abc" (JNum 3600%float) w); reflexivity.
Defined.

(** X16.  A token whose [expires_in] is truthy (present, and not 0, NaN or
    empty) and whose lifetime [expires_in * 1000] is below the store's
    ceiling is written with its own lifetime, in milliseconds, as the TTL.
    (A falsy [expires_in], such as 0, gets no TTL at all.) *)
Theorem cacheToken_shorter_lifetime_keeps_its_own
    `{B : Builtins} (ps : Props) (key : string) (expires_in : JsVal) (w : World) :
  props_lookup "access_token" ps = Some (JStr key) ->
  truthy (JStr key) = true ->
  props_lookup "expires_in" ps = Some expires_in ->
  truthy expires_in = true ->
  set_error (cache w) = None ->
  PrimFloat.ltb (PrimFloat.mul (ToNumber expires_in) 1000%float)
                (options_ttl (cache w)) = true ->
  (exists value,
     store_writes (events (run (cacheToken JNull (JObj ps) user_cb) w)) =
       [EvCacheSet (JStr key) value
          (Some (JObj [("ttl", JNum (PrimFloat.mul (ToNumber expires_in) 1000%float))]))])
  /\ entry_ttl <$> entries (store (run (cacheToken JNull (JObj ps) user_cb) w)) !! key
     = Some (Some (JNum (PrimFloat.mul (ToNumber expires_in) 1000%float))).
Proof.
  intros Hat Hkey Hexp Htruthy Hset Hlt.
  rewrite (cacheToken_caches_record_after_success JNull ps key w eq_refl Hat Hkey).
  rewrite Hset. unfold ttl_options. rewrite Hexp, Htruthy.
  unfold thousand. rewrite (Math_min_left _ _ Hlt). simpl. split.
  - eexists. reflexivity.
  - rewrite lookup_insert_eq. reflexivity.
Qed.

Lemma cacheToken_shorter_lifetime_keeps_its_own_witness :
  let ps := [("access_token", JStr "abc"); ("expires_in", JNum 30%float)] in
  let w := Runtime.world (Runtime.empty_cache 60000%float) (fun _ _ => [])
             (fun _ => 0%float) in
  (exists value,
     store_writes (events (run (cacheToken (B := Runtime.builtins) JNull (JObj ps) user_cb) w)) =
       [EvCacheSet (JStr "abc") value (Some (JObj [("ttl", JNum 30000%float)]))])
  /\ entry_ttl <$> entries (store (run (cacheToken (B := Runtime.builtins) JNull (JObj ps) user_cb) w))
                     !! "abc"
     = Some (Some (JNum 30000%float)).
Proof.
  intros ps w.
  apply (cacheToken_shorter_lifetime_keeps_its_own (B := Runtime.builtins)
           ps "abc" (JNum 30%float) w); reflexivity.
Defined.

(** X17.  A cached record that has no [expires_in] comes back from
    [getCachedToken] with one: the callback's record has [expires_in] set to
    NaN ([undefined] minus the elapsed seconds). *)
Theorem getCachedToken_without_expires_in_reports_NaN
    `{B : Builtins} (token : JsVal) (key : string) (en : Entry) (ps : Props)
    (w : World) :
  names_key token key ->
  get_error (cache w) = None ->
  entries (cache w) !! key = Some en ->
  truthy (JStr (entry_value en)) = true ->
  JSON_parse (entry_value en) = inr (JObj ps) ->
  props_lookup "expires_in" ps = None ->
  exists (r : Props) (v : float),
    callbacks (events (run (getCachedToken token user_cb) w)) = [[JNull; JObj r]]
    /\ props_lookup "expires_in" r = Some (JNum v)
    /\ PrimFloat.is_nan v = true.
Proof.
  intros Hk He Hm Ht Hp Hnone.
  exists (residual (now w) ps). eexists. split; [|split].
  - unfold run.
    rewrite (getCachedToken_hit token key en ps _ (fresh w) Hk He Hm Ht Hp).
    reflexivity.
  - unfold residual. rewrite props_lookup_delete_ne by discriminate.
    rewrite props_lookup_set_eq. reflexivity.
  - rewrite Hnone. cbn [ToNumber]. apply sub_nan_is_nan.
Qed.

Lemma getCachedToken_without_expires_in_reports_NaN_witness :
  let ps := [("access_token", JStr "abc"); ("cached_at", JNum 1000000%float)] in
  let en := {| entry_value := Runtime.stringify (JObj ps); entry_ttl := None |} in
  let c := with_entries (Runtime.empty_cache 60000%float) (<["abc" := en]> ∅) in
  let w := Runtime.world c (fun _ _ => []) (fun _ => 1005000%float) in
  exists (r : Props) (v : float),
    callbacks (events (run (getCachedToken (B := Runtime.builtins) (JStr "abc") user_cb) w))
      = [[JNull; JObj r]]
    /\ props_lookup "expires_in" r = Some (JNum v)
    /\ PrimFloat.is_nan v = true.
Proof.
  intros ps en c w.
  apply (getCachedToken_without_expires_in_reports_NaN (B := Runtime.builtins)
           (JStr "abc") "abc" en ps w).
  - constructor.
  - reflexivity.
  - reflexivity.
  - reflexivity.
  - reflexivity.
  - reflexivity.
Defined.

(** *** A hit is final; an unreadable entry is not *)

(** X18.  On a hit, whatever scopes are required and whatever the record's
    [scope] field holds, [verifyToken] neither calls the target nor changes
    the store. *)
Theorem verifyToken_hit_never_calls_target
    `{B : Builtins} (token requiredScopes : JsVal) (key : string) (en : Entry)
    (ps : Props) (w : World) :
  names_key token key ->
  get_error (cache w) = None ->
  entries (cache w) !! key = Some en ->
  truthy (JStr (entry_value en)) = true ->
  JSON_parse (entry_value en) = inr (JObj ps) ->
  target_calls (events (run (verifyToken token requiredScopes user_cb) w)) = []
  /\ store (run (verifyToken token requiredScopes user_cb) w) = cache w.
Proof.
  intros Hk He Hm Ht Hp. unfold run, verifyToken.
  rewrite (getCachedToken_hit token key en ps _ (fresh w) Hk He Hm Ht Hp).
  unfold arg. cbn [nth truthy].
  unfold get_prop. rewrite residual_keeps_scope.
  destruct (truthy requiredScopes) eqn:Hreq; [|split; reflexivity].
  destruct requiredScopes; try discriminate Hreq; unfold split_method;
    unfold_monad; simpl; try (split; reflexivity).
  all: destruct (props_lookup "scope" ps) as [[| |b|n|s'| | |]|]; simpl;
    try (split; reflexivity).
  all: try (destruct b; simpl; try (split; reflexivity)).
  all: try (destruct (negb (PrimFloat.is_zero n || PrimFloat.is_nan n)); simpl;
            try (split; reflexivity)).
  all: try (destruct (negb (String.eqb s' "")); simpl).
  all: match goal with
       | |- context [(0 <? ?n)%nat] => destruct (0 <? n)%nat
       end; split; reflexivity.
Qed.

Lemma verifyToken_hit_never_calls_target_witness :
  let ps := [("access_token", JStr "abc"); ("scope", JNum 7%float);
             ("cached_at", JNum 1000000%float)] in
  let en := {| entry_value := Runtime.stringify (JObj ps); entry_ttl := None |} in
  let c := with_entries (Runtime.empty_cache 60000%float) (<["abc" := en]> ∅) in
  let w := Runtime.world c (fun _ _ => [JNull; JObj []]) (fun _ => 1005000%float) in
  target_calls (events (run (verifyToken (B := Runtime.builtins) (JStr "abc") (JStr "read") user_cb) w)) = []
  /\ store (run (verifyToken (B := Runtime.builtins) (JStr "abc") (JStr "read") user_cb) w) = cache w.
Proof.
  intros ps en c w.
  apply (verifyToken_hit_never_calls_target (B := Runtime.builtins)
           (JStr "abc") (JStr "read") "abc" en ps w).
  - constructor.
  - reflexivity.
  - reflexivity.
  - reflexivity.
  - reflexivity.
Defined.

Lemma then_throw_ends_in_exception (m : M unit) (t : JsVal) (w0 : World) :
  let after : M unit := m ;;; Date_getTime ;;; throw t in
  (exists x, fst (after w0) = Throw x)
  /\ trace (snd (after w0)) = trace (snd (m w0)).
Proof.
  intros after. unfold after, bind, Date_getTime, throw.
  destruct (m w0) as [[[]|x] w1]; simpl; split; try reflexivity; eexists; reflexivity.
Qed.

(** X19.  [verifyToken] of a key whose stored text does not parse: the parse
    error is handed to the inner callback, which sees no record and calls the
    target as on a miss; when that returns, the code after the catch block
    throws, so the call ends in an exception whatever the target answered. *)
Theorem verifyToken_unreadable_entry_calls_target_and_throws
    `{B : Builtins} (token requiredScopes e : JsVal) (key : string) (en : Entry)
    (w : World) :
  names_key token key ->
  get_error (cache w) = None ->
  entries (cache w) !! key = Some en ->
  truthy (JStr (entry_value en)) = true ->
  JSON_parse (entry_value en) = inl e ->
  (exists x, completion (run (verifyToken token requiredScopes user_cb) w) = Throw x)
  /\ exists rest,
       events (run (verifyToken token requiredScopes user_cb) w) =
         EvCacheGet (JStr key) :: EvTarget verifyToken_m [token; requiredScopes] :: rest.
Proof.
  intros Hk He Hm Ht Hp. unfold run, verifyToken.
  set (k := fun targs : list JsVal =>
              if truthy (arg 0 targs) then user_cb [arg 0 targs]
              else reply <- set_prop (arg 1 targs) "access_token" token ;;
                   cacheToken (arg 0 targs) reply user_cb).
  assert (forall targs, appends (k targs)) as Hk_appends.
  { intros targs. unfold k. destruct (truthy (arg 0 targs)).
    - auto with appends.
    - apply appends_bind; [auto with appends|].
      intros reply. apply appends_cacheToken. auto with appends. }
  rewrite (getCachedToken_parse_failure token key en e _ (fresh w) Hk He Hm Ht Hp).
  set (w0 := logged (fresh w) [EvCacheGet (JStr key)]).
  set (m := targs <- target_call verifyToken_m [token; requiredScopes] ;; k targs).
  set (T := TypeError "Cannot read property cached_at").
  change ((exists x, fst ((m ;;; Date_getTime ;;; @throw unit T) w0) = Throw x)
          /\ exists rest,
               trace (snd ((m ;;; Date_getTime ;;; @throw unit T) w0)) =
               EvCacheGet (JStr key)
                 :: EvTarget verifyToken_m [token; requiredScopes] :: rest).
  destruct (then_throw_ends_in_exception m T w0) as [Hthrow Htrace].
  split; [exact Hthrow|].
  rewrite Htrace. unfold m, target_call, bind at 1 2, emit.
  match goal with
  | |- context [k ?a ?w1] => destruct (Hk_appends a w1) as [rest Hrest]
  end.
  exists rest. rewrite Hrest. reflexivity.
Qed.

Lemma verifyToken_unreadable_entry_calls_target_and_throws_witness :
  let en := {| entry_value := "k-123"; entry_ttl := None |} in
  let c := with_entries (Runtime.empty_cache 60000%float) (<["apiKey:k-123" := en]> ∅) in
  let w := Runtime.world c (fun _ _ => [new_Error "Error" "invalid_token"])
             (fun _ => 0%float) in
  (exists x,
     completion (run (verifyToken (B := Runtime.builtins) (JStr "apiKey:k-123") JNull user_cb) w)
     = Throw x)
  /\ exists rest,
       events (run (verifyToken (B := Runtime.builtins) (JStr "apiKey:k-123") JNull user_cb) w) =
         EvCacheGet (JStr "apiKey:k-123")
           :: EvTarget verifyToken_m [JStr "apiKey:k-123"; JNull] :: rest.
Proof.
  intros en c w.
  apply (verifyToken_unreadable_entry_calls_target_and_throws (B := Runtime.builtins)
           (JStr "apiKey:k-123") JNull
           (new_Error "SyntaxError" "Unexpected token") "apiKey:k-123" en w).
  - constructor.
  - reflexivity.
  - reflexivity.
  - reflexivity.
  - reflexivity.
Defined.

(** X20.  A miss is not an error: [getCachedToken] of a key the store does
    not hold calls back once with [(null, undefined)], where a failing store
    calls back with its error alone; a caller can tell the two apart. *)
Theorem getCachedToken_miss_is_not_an_error
    `{B : Builtins} (token e : JsVal) (key : string) (w w_down : World) :
  names_key token key ->
  get_error (cache w) = None ->
  entries (cache w) !! key = None ->
  get_error (cache w_down) = Some e ->
  truthy e = true ->
  run (getCachedToken token user_cb) w =
    {| completion := Normal tt;
       events := [EvCacheGet (JStr key); EvCallback [JNull; JUndefined]];
       store := cache w |}
  /\ run (getCachedToken token user_cb) w_down =
       {| completion := Normal tt;
          events := [EvCacheGet (JStr key); EvCallback [e]];
          store := cache w_down |}.
Proof.
  intros Hk He Hm Hdown Herr. unfold run. split.
  - rewrite (getCachedToken_miss token key _ (fresh w) Hk He Hm). reflexivity.
  - rewrite (getCachedToken_store_error token key e _ (fresh w_down) Hk Hdown).
    rewrite Herr. reflexivity.
Qed.

Lemma getCachedToken_miss_is_not_an_error_witness :
  let down := new_Error "Error" "ECONNREFUSED" in
  let w := Runtime.world (Runtime.empty_cache 60000%float) (fun _ _ => [])
             (fun _ => 0%float) in
  let failing := {| options_ttl := 60000%float; options_encoding := JUndefined;
                    entries := ∅; get_error := Some down; set_error := None |} in
  let w_down := Runtime.world failing (fun _ _ => []) (fun _ => 0%float) in
  let token := JObj [("access_token", JStr "abc")] in
  run (getCachedToken (B := Runtime.builtins) token user_cb) w =
    {| completion := Normal tt;
       events := [EvCacheGet (JStr "abc"); EvCallback [JNull; JUndefined]];
       store := cache w |}
  /\ run (getCachedToken (B := Runtime.builtins) token user_cb) w_down =
       {| completion := Normal tt;
          events := [EvCacheGet (JStr "abc"); EvCallback [down]];
          store := cache w_down |}.
Proof.
  intros down w failing w_down token.
  apply (getCachedToken_miss_is_not_an_error (B := Runtime.builtins)
           token down "abc" w w_down).
  - now constructor.
  - reflexivity.
  - reflexivity.
  - reflexivity.
  - reflexivity.
Defined.
